(** * SocialUwU: the post routes of the backend

    A shallow embedding of the Express router of the post service
    (list, create, like, trending, delete, update, comment) together with
    the properties of its contract.

    The router is a set of handlers over one shared document store.  Each
    handler is written here in a small state-and-exception monad over the
    store: a database call reads or writes the store, a dereference of
    [null] throws, and the [try { ... } catch] that wraps every handler
    body turns a thrown error into a [500] response. *)

From Stdlib Require Import List String Ascii Bool Arith ZArith Lia.
From Stdlib Require Import Sorted Permutation RelationClasses.
From Stdlib Require DecimalString DecimalN.
Import ListNotations.

Local Open Scope string_scope.
Local Open Scope list_scope.

(** ** Documents *)

(** Identifiers travel as opaque strings (path segments, the caller identity
    attached by the authentication middleware, the owner reference of a
    post).  The JavaScript [===] and [Array.prototype.includes] on strings
    compare by value, which is [String.eqb]. *)
Definition Id : Type := string.

(** A plain JSON object: its properties in order, each a name and a value. *)
Definition JsonObject : Type := list (string * string).

(** Modelled from the spec: the user model ([../models/userModel]) is not
    part of the sources at hand.  A user document is its identifier and its
    remaining stored properties (among them the secret [password]);
    [toJSON] is the plain object of all of them. *)
Record User : Type := mkUser {
  user_id : Id;
  user_doc : JsonObject
}.

Definition toJSON (u : User) : JsonObject :=
  ("_id", user_id u) :: user_doc u.

(** One entry of a post's [comments]: the object [{ userboi, comment }] that
    the comment route pushes.  [comment] is [req.body.comment] as received
    ([None] is JavaScript's [undefined]). *)
Record Comment : Type := mkComment {
  userboi : JsonObject;
  comment : option string
}.

(** Modelled from the spec: the post model ([../models/postModel]) is not
    part of the sources at hand.  The fields are those of the data model:
    [{id, caption, image, userId, likes, comments, createdAt}], with
    [likes] and [comments] arrays and [createdAt] a timestamp
    (milliseconds). *)
Record Post : Type := mkPost {
  _id : Id;
  caption : string;
  image : string;
  userId : Id;
  likes : list Id;
  comments : list Comment;
  createdAt : Z
}.

(** The store: the two collections, each in its natural (insertion) order. *)
Record DB : Type := mkDB {
  posts : list Post;
  users : list User
}.

(** ** HTTP responses *)

Inductive Payload : Type :=
| JsonPosts (l : list Post)
| JsonPost (p : option Post)
| JsonError (msg : string)
| JsonText (s : string).

Record Response : Type := mkResponse {
  status : nat;
  payload : Payload
}.

(** ** The handler monad: store state and thrown errors *)

Inductive Result (A : Type) : Type :=
| Ok (a : A)
| Throw (msg : string).
Arguments Ok {A} a.
Arguments Throw {A} msg.

Definition M (A : Type) : Type := DB -> Result A * DB.

Definition ret {A : Type} (a : A) : M A := fun db => (Ok a, db).

Definition bind {A B : Type} (m : M A) (k : A -> M B) : M B :=
  fun db =>
    match m db with
    | (Ok a, db') => k a db'
    | (Throw msg, db') => (Throw msg, db')
    end.

Definition throw {A : Type} (msg : string) : M A := fun db => (Throw msg, db).

Notation "x <- m ;; k" := (bind m (fun x => k))
  (at level 61, m at next level, right associativity).
Notation "m ;;; k" := (bind m (fun _ => k))
  (at level 61, right associativity).

(** [res.status(n).json(v)]; a bare [res.json(v)] answers [200]. *)
Definition respond (n : nat) (v : Payload) : M Response :=
  ret (mkResponse n v).

(** The [try { body } catch (error) { res.status(500).send({error: error.message}) }]
    around every handler body.  What the body wrote to the store before it
    threw stays written. *)
Definition try_catch_500 (body : M Response) (db : DB) : Response * DB :=
  match body db with
  | (Ok r, db') => (r, db')
  | (Throw msg, db') => (mkResponse 500 (JsonError msg), db')
  end.

(** Reading a property of a looked-up document: on [null] JavaScript throws
    a [TypeError]. *)
Definition deref {A : Type} (o : option A) : M A :=
  match o with
  | Some a => ret a
  | None => throw "Cannot read properties of null"
  end.

(** ** Request validation (express-validator) *)

(** A body field is either absent ([undefined], [None]) or a string. *)
Definition exists_ (v : option string) : bool :=
  match v with
  | Some _ => true
  | None => false
  end.

(** Validators other than [exists] see the field converted to a string;
    an absent field converts to the empty string. *)
Definition toString (v : option string) : string :=
  match v with
  | Some s => s
  | None => ""
  end.

(** [isLength({ min, max })]: the number of characters of the string lies
    between the two bounds, both included. *)
Definition isLength (min max : nat) (s : string) : bool :=
  Nat.leb min (String.length s) && Nat.leb (String.length s) max.

(** One validator of a chain with its [withMessage]: the message is recorded
    when the validator fails. *)
Definition check (ok : bool) (msg : string) : list string :=
  if ok then [] else [msg].

(** [body("caption").exists().withMessage(..).isLength({min: 5, max: 100}).withMessage(..)]:
    every validator of the chain runs, failures are recorded in order. *)
Definition caption_chain (v : option string) : list string :=
  check (exists_ v) "Caption in required"
  ++ check (isLength 5 100 (toString v))
       "Caption must be between 5 and 100 characters".

(** [body("image").exists().withMessage("Image is required")] *)
Definition image_chain (v : option string) : list string :=
  check (exists_ v) "Image is required".

(** [body("comment").exists().withMessage("Comment is required")] *)
Definition comment_chain (v : option string) : list string :=
  check (exists_ v) "Comment is required".

(** [validationResult(req)]: the errors of all chains, in the order the
    chains are mounted on the route. *)
Definition validationResult (chains : list (list string)) : list string :=
  List.concat chains.

(** ** Store operations (the ODM) *)

Definition id_eqb (a b : Id) : bool := String.eqb a b.

Fixpoint findById_posts (id : Id) (l : list Post) : option Post :=
  match l with
  | [] => None
  | p :: l' => if id_eqb (_id p) id then Some p else findById_posts id l'
  end.

Fixpoint findById_users (id : Id) (l : list User) : option User :=
  match l with
  | [] => None
  | u :: l' => if id_eqb (user_id u) id then Some u else findById_users id l'
  end.

(** Apply [f] to the first document with the given [_id]. *)
Fixpoint update_first (id : Id) (f : Post -> Post) (l : list Post) : list Post :=
  match l with
  | [] => []
  | p :: l' =>
      if id_eqb (_id p) id then f p :: l' else p :: update_first id f l'
  end.

(** Remove the first document with the given [_id]. *)
Fixpoint delete_first (id : Id) (l : list Post) : list Post :=
  match l with
  | [] => []
  | p :: l' => if id_eqb (_id p) id then l' else p :: delete_first id l'
  end.

(** [Post.find()] *)
Definition Post_find : M (list Post) := fun db => (Ok (posts db), db).

(** [Post.find({ userId: userId })] *)
Definition Post_find_by_userId (uid : Id) : M (list Post) :=
  fun db => (Ok (filter (fun p => id_eqb (userId p) uid) (posts db)), db).

(** [Post.findById(postId)]: the document, or [null]. *)
Definition Post_findById (id : Id) : M (option Post) :=
  fun db => (Ok (findById_posts id (posts db)), db).

(** [User.findById(userId)] *)
Definition User_findById (id : Id) : M (option User) :=
  fun db => (Ok (findById_users id (users db)), db).

Definition set_posts (l : list Post) (db : DB) : DB :=
  mkDB l (users db).

(** [Post.create({caption, image, userId})].  The new document gets its
    identifier [newId] and its creation time [now] from the environment
    and goes to the end of the collection.  Modelled from the spec, the
    post model being absent: a new post has [likes = []] and
    [comments = []], and a document without a caption or an image is not
    a post. *)
Definition Post_create (newId : Id) (now : Z)
    (cap img : option string) (uid : Id) : M Post :=
  match cap, img with
  | Some c, Some i =>
      fun db =>
        let p := mkPost newId c i uid [] [] now in
        (Ok p, set_posts (posts db ++ [p]) db)
  | _, _ => throw "Post validation failed"
  end.

(** [Post.findByIdAndDelete(postId)] *)
Definition Post_findByIdAndDelete (id : Id) : M unit :=
  fun db => (Ok tt, set_posts (delete_first id (posts db)) db).

Definition set_caption_image (cap img : option string) (p : Post) : Post :=
  mkPost (_id p)
         (match cap with Some c => c | None => caption p end)
         (match img with Some i => i | None => image p end)
         (userId p) (likes p) (comments p) (createdAt p).

(** [Post.findByIdAndUpdate(postId, {caption: caption, image: image})]:
    the named fields are set, an [undefined] value sets nothing. *)
Definition Post_findByIdAndUpdate (id : Id) (cap img : option string) : M unit :=
  fun db => (Ok tt, set_posts (update_first id (set_caption_image cap img) (posts db)) db).

(** [post.updateOne(update)]: the update is applied to the stored document
    that has the identifier of [post]. *)
Definition updateOne (post : Post) (update : Post -> Post) : M unit :=
  fun db => (Ok tt, set_posts (update_first (_id post) update (posts db)) db).

(** [{ $pull: { likes: userId } }]: every occurrence is removed. *)
Definition pull_likes (uid : Id) (p : Post) : Post :=
  mkPost (_id p) (caption p) (image p) (userId p)
         (filter (fun x => negb (id_eqb x uid)) (likes p))
         (comments p) (createdAt p).

(** [{ $push: { likes: userId } }]: appended at the end. *)
Definition push_likes (uid : Id) (p : Post) : Post :=
  mkPost (_id p) (caption p) (image p) (userId p)
         (likes p ++ [uid])
         (comments p) (createdAt p).

(** [{ $push: { comments: { userboi, comment } } }] *)
Definition push_comments (c : Comment) (p : Post) : Post :=
  mkPost (_id p) (caption p) (image p) (userId p) (likes p)
         (comments p ++ [c]) (createdAt p).

(** [post.likes.includes(userId)] *)
Definition includes (l : list Id) (uid : Id) : bool :=
  existsb (fun x => id_eqb x uid) l.

(** lodash's [omit(object, key)]: a copy without that property; of
    [undefined], the empty object. *)
Definition omit (o : option JsonObject) (key : string) : JsonObject :=
  match o with
  | Some obj => filter (fun kv => negb (String.eqb (fst kv) key)) obj
  | None => []
  end.

(** ** Sorting a query result *)

Section Sort.
Context {A K : Type}.
Variable geb : K -> K -> bool.
Variable key : A -> K.

(** [x] goes in front of the first element whose key it reaches, so
    documents with equal keys keep their natural order. *)
Fixpoint insert_desc (x : A) (l : list A) : list A :=
  match l with
  | [] => [x]
  | y :: l' =>
      if geb (key x) (key y) then x :: y :: l' else y :: insert_desc x l'
  end.

Definition sort_desc (l : list A) : list A :=
  fold_right insert_desc [] l.

(** [x] may stand in front of [y] in a descending result. *)
Definition key_ge (x y : A) : Prop := geb (key x) (key y) = true.
End Sort.

(** [.sort({ createdAt: -1 })] *)
Definition sort_createdAt_desc (l : list Post) : list Post :=
  sort_desc Z.geb createdAt l.

(** The database orders documents on an array field by one element of the
    array: for a descending sort, its greatest element; an empty array
    comes below every non-empty one.  Strings compare lexicographically. *)
Fixpoint greatest (l : list Id) : option Id :=
  match l with
  | [] => None
  | x :: l' =>
      match greatest l' with
      | None => Some x
      | Some m => Some (if String.leb m x then x else m)
      end
  end.

Definition array_key_geb (a b : option Id) : bool :=
  match a, b with
  | _, None => true
  | None, Some _ => false
  | Some x, Some y => String.leb y x
  end.

(** [.sort({ likes: -1 })] *)
Definition sort_likes_desc (l : list Post) : list Post :=
  sort_desc array_key_geb (fun p => greatest (likes p)) l.

(** [.limit(5)] *)
Definition limit (n : nat) (l : list Post) : list Post := firstn n l.

(** [Post.find().sort({ createdAt: -1 })], the list most routes answer with. *)
Definition Post_find_sorted : M (list Post) :=
  l <- Post_find ;; ret (sort_createdAt_desc l).

(** ** The routes

    Every handler below takes the path parameters, the body fields and,
    for the routes behind the authentication middleware, the caller's
    identity [res.locals.user._id]; it maps a store to the response and
    the store left behind. *)

(** [GET /] — get all posts *)
Definition get_all_posts : DB -> Response * DB :=
  try_catch_500 (
    l <- Post_find_sorted ;;
    respond 200 (JsonPosts l)).

(** [POST /] — create post *)
Definition create_post (newId : Id) (now : Z)
    (cap img : option string) (caller : Id) : DB -> Response * DB :=
  try_catch_500 (
    let errors := validationResult [caption_chain cap; image_chain img] in
    match errors with
    | e :: _ => respond 400 (JsonError e)
    | [] =>
        Post_create newId now cap img caller ;;;
        l <- Post_find_sorted ;;
        respond 200 (JsonPosts l)
    end).

(** [GET /userposts] — get user posts *)
Definition get_user_posts (caller : Id) : DB -> Response * DB :=
  try_catch_500 (
    l <- Post_find_by_userId caller ;;
    respond 200 (JsonPosts l)).

(** [GET /userposts/:userId] — get user posts by id *)
Definition get_user_posts_by_id (uid : Id) : DB -> Response * DB :=
  try_catch_500 (
    l <- Post_find_by_userId uid ;;
    respond 200 (JsonPosts l)).

(** [PUT /like/:postId] — like post *)
Definition like_post (postId caller : Id) : DB -> Response * DB :=
  try_catch_500 (
    found <- Post_findById postId ;;
    post <- deref found ;;
    if includes (likes post) caller then
      updateOne post (pull_likes caller) ;;;
      newpost1 <- Post_find_sorted ;;
      respond 200 (JsonPosts newpost1)
    else
      updateOne post (push_likes caller) ;;;
      newpost2 <- Post_find_sorted ;;
      respond 200 (JsonPosts newpost2)).

(** [GET /trending] — trending posts *)
Definition trending_posts : DB -> Response * DB :=
  try_catch_500 (
    l <- Post_find ;;
    respond 200 (JsonPosts (limit 5 (sort_likes_desc l)))).

(** [GET /:postId] — get post by id *)
Definition get_post_by_id (postId : Id) : DB -> Response * DB :=
  try_catch_500 (
    found <- Post_findById postId ;;
    respond 200 (JsonPost found)).

(** [DELETE /:postId] — delete post *)
Definition delete_post (postId caller : Id) : DB -> Response * DB :=
  try_catch_500 (
    found <- Post_findById postId ;;
    post <- deref found ;;
    if id_eqb (userId post) caller then
      Post_findByIdAndDelete postId ;;;
      l <- Post_find_sorted ;;
      respond 200 (JsonPosts l)
    else
      respond 403 (JsonError "You can't delete other posts")).

(** [PUT /:postId] — update post *)
Definition update_post (postId : Id) (cap img : option string) (caller : Id)
    : DB -> Response * DB :=
  try_catch_500 (
    let errors := validationResult [caption_chain cap; image_chain img] in
    match errors with
    | e :: _ => respond 400 (JsonError e)
    | [] =>
        found <- Post_findById postId ;;
        post <- deref found ;;
        if id_eqb (userId post) caller then
          Post_findByIdAndUpdate postId cap img ;;;
          l <- Post_find_sorted ;;
          respond 200 (JsonPosts l)
        else
          respond 403 (JsonError "You can't update other posts")
    end).

(** [POST /:postId/comment] — comment on a post *)
Definition comment_on_post (postId : Id) (text : option string) (caller : Id)
    : DB -> Response * DB :=
  try_catch_500 (
    let errors := validationResult [comment_chain text] in
    match errors with
    | e :: _ => respond 400 (JsonError e)
    | [] =>
        found <- Post_findById postId ;;
        user <- User_findById caller ;;
        let snapshot := omit (option_map toJSON user) "password" in
        post <- deref found ;;
        updateOne post (push_comments (mkComment snapshot text)) ;;;
        l <- Post_find_sorted ;;
        respond 200 (JsonPosts l)
    end).

(** [POST /imageboi] *)
Definition imageboi : DB -> Response * DB :=
  try_catch_500 (respond 200 (JsonText "Uploaded")).

(** ** The router as one step function *)

Inductive Request : Type :=
| GetAllPosts
| CreatePost (newId : Id) (now : Z) (cap img : option string) (caller : Id)
| GetUserPosts (caller : Id)
| GetUserPostsById (uid : Id)
| LikePost (postId caller : Id)
| TrendingPosts
| GetPostById (postId : Id)
| DeletePost (postId caller : Id)
| UpdatePost (postId : Id) (cap img : option string) (caller : Id)
| CommentOnPost (postId : Id) (text : option string) (caller : Id)
| ImageBoi.

Definition router (req : Request) : DB -> Response * DB :=
  match req with
  | GetAllPosts => get_all_posts
  | CreatePost newId now cap img caller => create_post newId now cap img caller
  | GetUserPosts caller => get_user_posts caller
  | GetUserPostsById uid => get_user_posts_by_id uid
  | LikePost postId caller => like_post postId caller
  | TrendingPosts => trending_posts
  | GetPostById postId => get_post_by_id postId
  | DeletePost postId caller => delete_post postId caller
  | UpdatePost postId cap img caller => update_post postId cap img caller
  | CommentOnPost postId text caller => comment_on_post postId text caller
  | ImageBoi => imageboi
  end.

(** ** Vocabulary of the properties *)

(** What a write to a stored post may do to it: identifier, owner and
    creation time stay, comments are only added at the end. *)
Definition evolves (p p' : Post) : Prop :=
  _id p' = _id p /\
  userId p' = userId p /\
  createdAt p' = createdAt p /\
  exists more, comments p' = comments p ++ more.

(** Newest first: every post is at least as recent as all that follow it. *)
Definition newer_or_same (p q : Post) : Prop := (createdAt q <= createdAt p)%Z.

Definition newest_first (l : list Post) : Prop :=
  StronglySorted newer_or_same l.

(** Most liked first: the numbers of likes never increase along the list. *)
Definition more_or_same_likes (p q : Post) : Prop :=
  List.length (likes q) <= List.length (likes p).

Definition most_liked_first (l : list Post) : Prop :=
  Sorted more_or_same_likes l.

(** The order [.sort({ likes: -1 })] establishes: by the greatest element
    of [likes], descending. *)
Definition likes_key_ge (p q : Post) : Prop :=
  array_key_geb (greatest (likes p)) (greatest (likes q)) = true.

(** A list taken from another without reordering. *)
Inductive Subseq {A : Type} : list A -> list A -> Prop :=
| Subseq_nil : Subseq [] []
| Subseq_keep (x : A) (l1 l2 : list A) : Subseq l1 l2 -> Subseq (x :: l1) (x :: l2)
| Subseq_skip (x : A) (l1 l2 : list A) : Subseq l1 l2 -> Subseq l1 (x :: l2).

(** The body of a create or update request passes validation. *)
Definition valid_body (cap img : option string) : Prop :=
  validationResult [caption_chain cap; image_chain img] = [].

(** The identifiers of the stored posts are pairwise distinct, as the
    database keeps them. *)
Definition unique_ids (db : DB) : Prop := NoDup (map _id (posts db)).

(** The posts of a response, when it carries a list of posts. *)
Definition posts_of (r : Response) : list Post :=
  match payload r with
  | JsonPosts l => l
  | _ => []
  end.

(** ** Sample stores *)

Definition alice : User :=
  mkUser "u1" [("username", "alice"); ("password", "s3cret")].

Definition bob : User :=
  mkUser "u2" [("username", "bob"); ("password", "hunter2")].

(** Two posts of the same author, in the order they were created. *)
Definition first_post : Post :=
  mkPost "p1" "first post" "a.png" "u1" ["u1"; "u2"] [] 1000.

Definition second_post : Post :=
  mkPost "p2" "second post" "b.png" "u1" ["u3"] [] 2000.

Definition sample_db : DB := mkDB [first_post; second_post] [alice; bob].

(** The same store as the routes build it from a store without posts: "u1"
    creates the two posts, then "u1" and "u2" like the first and "u3" the
    second. *)
Definition empty_db : DB := mkDB [] [alice; bob].

Definition built_db : DB :=
  let db1 := snd (create_post "p1" 1000 (Some "first post") (Some "a.png") "u1" empty_db) in
  let db2 := snd (create_post "p2" 2000 (Some "second post") (Some "b.png") "u1" db1) in
  let db3 := snd (like_post "p1" "u1" db2) in
  let db4 := snd (like_post "p1" "u2" db3) in
  snd (like_post "p2" "u3" db4).

Definition caption4 : string := "abcd".
Definition caption5 : string := "abcde".
Definition caption100 : string :=
  "0123456789012345678901234567890123456789012345678901234567890123456789012345678901234567890123456789".
Definition caption101 : string := String "x" caption100.


(** ** Reading a request *)

(** The routes that only read the store. *)
Definition read_only (req : Request) : bool :=
  match req with
  | GetAllPosts | GetUserPosts _ | GetUserPostsById _
  | TrendingPosts | GetPostById _ | ImageBoi => true
  | _ => false
  end.

(** The routes that answer a success with [Post.find().sort({ createdAt: -1 })]. *)
Definition answers_feed (req : Request) : bool :=
  match req with
  | GetAllPosts | CreatePost _ _ _ _ _ | LikePost _ _ | DeletePost _ _
  | UpdatePost _ _ _ _ | CommentOnPost _ _ _ => true
  | _ => false
  end.



(** No stored post lists a user twice among its likes. *)
Definition likes_unique (db : DB) : Prop :=
  forall p, In p (posts db) -> NoDup (likes p).

(** ** The upload storage *)

(** A non-negative integer converted to a string, as [+] does with a number
    and a string: its decimal digits. *)
Definition number_toString (n : N) : string :=
  DecimalString.NilEmpty.string_of_uint (N.to_uint n).

(** [destination]: [cb(null, '../public/images')] *)
Definition destination : string := "../public/images".

(** [filename]: [cb(null, Date.now() + file.originalname)], with [now] the
    value of [Date.now()]. *)
Definition filename (now : N) (originalname : string) : string :=
  number_toString now ++ originalname.

(** ** The client: loading the feed ([actions/posts.ts]) *)

(** What the action creator does with the store's [dispatch] or with the
    toast. *)
Inductive Effect : Type :=
| Toast (msg : string)
| Dispatch (action_type : string) (data : Payload).

(** A string in a condition: the empty string is false. *)
Definition truthy (s : string) : bool := negb (String.eqb s "").

(** [data.error]: the [error] property of an error body, [undefined] on
    anything else; reading it off [null] throws. *)
Definition data_error (data : Payload) : Result (option string) :=
  match data with
  | JsonError msg => Ok (Some msg)
  | JsonPost None => Throw "Cannot read properties of null"
  | _ => Ok None
  end.

(** [getPosts], given the [data] of the response of [api.get_posts()]. *)
Definition getPosts (data : Payload) : Result Effect :=
  match data_error data with
  | Throw msg => Throw msg
  | Ok (Some msg) =>
      if truthy msg then Ok (Toast msg) else Ok (Dispatch "GET_POSTS" data)
  | Ok None => Ok (Dispatch "GET_POSTS" data)
  end.

(** ** The client: the create-post dialog ([MiddleStuffDark]) *)

(** The state [postData] of the form. *)
Record PostData : Type := mkPostData {
  form_caption : string;
  form_image : string
}.

(** White space and line terminators among the characters below 256. *)
Definition isWhiteSpace (c : ascii) : bool :=
  match N_of_ascii c with
  | 9 | 10 | 11 | 12 | 13 | 32 | 160 => true
  | _ => false
  end%N.

Fixpoint trimStart_chars (l : list ascii) : list ascii :=
  match l with
  | [] => []
  | c :: l' => if isWhiteSpace c then trimStart_chars l' else l
  end.

(** [String.prototype.trim]: white space removed from both ends. *)
Definition trim (s : string) : string :=
  string_of_list_ascii
    (rev (trimStart_chars (rev (trimStart_chars (list_ascii_of_string s))))).

(** The condition under which the dialog renders the working Create button
    and not the disabled one:
    [postData?.image && postData?.caption?.trim()?.length > 5
       && postData?.caption?.trim()?.length < 100]. *)
Definition create_enabled (pd : PostData) : bool :=
  truthy (form_image pd)
  && Nat.ltb 5 (String.length (trim (form_caption pd)))
  && Nat.ltb (String.length (trim (form_caption pd))) 100.

(** The component: the two pieces of state, and the uploads still under
    way.  [imageUpload] is a closure of the render it was created in, so the
    callback it leaves waiting on the upload holds the [postData] of that
    render. *)
Record Component : Type := mkComponent {
  open : bool;
  postData : PostData;
  inflight : list PostData
}.

Definition initial : Component :=
  mkComponent false (mkPostData "" "") [].

(** [setOpen(true)] *)
Definition handleClickOpen (s : Component) : Component :=
  mkComponent true (postData s) (inflight s).

(** [setOpen(false)] *)
Definition handleClose (s : Component) : Component :=
  mkComponent false (postData s) (inflight s).

(** The caption field's [onChange]:
    [setPostData({ ...postData, caption: e.target.value })]. *)
Definition onChange (value : string) (s : Component) : Component :=
  mkComponent (open s)
    (mkPostData value (form_image (postData s))) (inflight s).

(** [imageUpload], up to the [await]: the file is posted and the callback
    waits with the [postData] it closed over. *)
Definition imageUpload (s : Component) : Component :=
  mkComponent (open s) (postData s) (inflight s ++ [postData s]).

(** The text of [data?.filename] inside the template literal. *)
Definition filename_text (f : option string) : string :=
  match f with
  | Some name => name
  | None => "undefined"
  end.

Fixpoint remove_nth {A : Type} (k : nat) (l : list A) : list A :=
  match l, k with
  | [], _ => []
  | _ :: l', O => l'
  | x :: l', S k' => x :: remove_nth k' l'
  end.

(** The [then] of [imageUpload] for the [k]-th upload under way, answered
    with [res.data.filename]:
    [setPostData({ ...postData, image: `https://socialuwu.herokuapp.com/images/${data?.filename}` })]
    with the [postData] the callback holds. *)
Definition imageUpload_then (k : nat) (f : option string) (s : Component)
    : Component :=
  match nth_error (inflight s) k with
  | Some captured =>
      mkComponent (open s)
        (mkPostData (form_caption captured)
           ("https://socialuwu.herokuapp.com/images/" ++ filename_text f))
        (remove_nth k (inflight s))
  | None => s
  end.

(** [createPostboi]: [handleClose()] and
    [dispatch(createPost(postData, tokenboi))]; the second component is the
    [postData] handed to [createPost]. *)
Definition createPostboi (s : Component) : Component * PostData :=
  (handleClose s, postData s).

Inductive Event : Type :=
| ClickOpen
| ClickClose
| Change (value : string)
| UploadStart
| UploadDone (k : nat) (f : option string)
| ClickCreate.

(** One event; with it, the drafts handed to [createPost].  The disabled
    Create button has no [onClick]. *)
Definition step (e : Event) (s : Component) : Component * list PostData :=
  match e with
  | ClickOpen => (handleClickOpen s, [])
  | ClickClose => (handleClose s, [])
  | Change value => (onChange value s, [])
  | UploadStart => (imageUpload s, [])
  | UploadDone k f => (imageUpload_then k f s, [])
  | ClickCreate =>
      if create_enabled (postData s)
      then (fst (createPostboi s), [snd (createPostboi s)])
      else (s, [])
  end.

Fixpoint run (events : list Event) (s : Component) : Component * list PostData :=
  match events with
  | [] => (s, [])
  | e :: rest =>
      let (s1, out1) := step e s in
      let (s2, out2) := run rest s1 in
      (s2, out1 ++ out2)
  end.

Definition is_upload_done (e : Event) : bool :=
  match e with
  | UploadDone _ _ => true
  | _ => false
  end.

Definition is_create (e : Event) : bool :=
  match e with
  | ClickCreate => true
  | _ => false
  end.

(** The events that are clicks on the buttons of the dialog. *)
Definition is_click (e : Event) : bool :=
  match e with
  | ClickOpen | ClickClose | ClickCreate => true
  | _ => false
  end.

(** Unfolding the monad and the store operations of a route body. *)
Ltac run_route :=
  unfold try_catch_500, bind, ret, respond, throw, deref,
    Post_find_sorted, Post_find, Post_findById, User_findById,
    Post_find_by_userId, Post_findByIdAndDelete, Post_findByIdAndUpdate,
    updateOne, Post_create, set_posts; simpl.

(** ** Facts about identifiers and the store operations *)

Lemma id_eqb_eq (a b : Id) : id_eqb a b = true <-> a = b.
Proof. unfold id_eqb. apply String.eqb_eq. Qed.

Lemma id_eqb_neq (a b : Id) : id_eqb a b = false <-> a <> b.
Proof. unfold id_eqb. apply String.eqb_neq. Qed.

Lemma id_eqb_refl (a : Id) : id_eqb a a = true.
Proof. apply id_eqb_eq. reflexivity. Qed.

Lemma includes_In (l : list Id) (u : Id) : includes l u = true <-> In u l.
Proof.
  unfold includes. rewrite existsb_exists. split.
  - intros [x [Hin Heq]]. apply id_eqb_eq in Heq. now subst.
  - intros Hin. exists u. split; [assumption | apply id_eqb_refl].
Qed.

Lemma includes_not_In (l : list Id) (u : Id) : includes l u = false <-> ~ In u l.
Proof.
  rewrite <- includes_In. destruct (includes l u); split; congruence.
Qed.

Lemma findById_posts_id (id : Id) (l : list Post) (p : Post) :
  findById_posts id l = Some p -> _id p = id.
Proof.
  induction l as [|q l IH]; simpl; [discriminate|].
  destruct (id_eqb (_id q) id) eqn:E.
  - intros [= <-]. now apply id_eqb_eq.
  - exact IH.
Qed.

Lemma findById_posts_In (id : Id) (l : list Post) (p : Post) :
  findById_posts id l = Some p -> In p l.
Proof.
  induction l as [|q l IH]; simpl; [discriminate|].
  destruct (id_eqb (_id q) id).
  - intros [= <-]. now left.
  - intros H. right. auto.
Qed.

Lemma findById_posts_None (id : Id) (l : list Post) :
  findById_posts id l = None <-> ~ In id (map _id l).
Proof.
  induction l as [|q l IH]; simpl.
  - tauto.
  - destruct (id_eqb (_id q) id) eqn:E.
    + apply id_eqb_eq in E. split; [discriminate | intros H; exfalso; auto].
    + apply id_eqb_neq in E. rewrite IH. tauto.
Qed.

Section UpdateFirst.
Variable id : Id.
Variable f : Post -> Post.
Hypothesis f_id : forall p, _id (f p) = _id p.

Lemma map_id_update_first (l : list Post) :
  map _id (update_first id f l) = map _id l.
Proof.
  induction l as [|q l IH]; simpl; [reflexivity|].
  destruct (id_eqb (_id q) id); simpl; [now rewrite f_id | now rewrite IH].
Qed.

Lemma findById_update_first_same (l : list Post) (p : Post) :
  findById_posts id l = Some p ->
  findById_posts id (update_first id f l) = Some (f p).
Proof.
  induction l as [|q l IH]; simpl; [discriminate|].
  destruct (id_eqb (_id q) id) eqn:E; simpl.
  - intros [= <-]. now rewrite f_id, E.
  - intros H. rewrite E. auto.
Qed.

Lemma findById_update_first_other (l : list Post) (other : Id) :
  other <> id ->
  findById_posts other (update_first id f l) = findById_posts other l.
Proof.
  intros Hne. induction l as [|q l IH]; simpl; [reflexivity|].
  destruct (id_eqb (_id q) id) eqn:E; simpl.
  - rewrite f_id. apply id_eqb_eq in E.
    assert (Hq : id_eqb (_id q) other = false)
      by (apply id_eqb_neq; congruence).
    now rewrite Hq.
  - now rewrite IH.
Qed.

Lemma In_update_first_other (l : list Post) (q : Post) :
  _id q <> id -> (In q (update_first id f l) <-> In q l).
Proof.
  intros Hne. induction l as [|r l IH]; simpl; [tauto|].
  destruct (id_eqb (_id r) id) eqn:E; simpl.
  - apply id_eqb_eq in E. split; intros [H | H]; auto.
    + exfalso. apply Hne. rewrite <- H, f_id. exact E.
    + exfalso. apply Hne. now rewrite <- H.
  - rewrite IH. tauto.
Qed.

Lemma length_update_first (l : list Post) :
  List.length (update_first id f l) = List.length l.
Proof.
  induction l as [|q l IH]; simpl; [reflexivity|].
  destruct (id_eqb (_id q) id); simpl; congruence.
Qed.
End UpdateFirst.

Lemma findById_delete_first_same (id : Id) (l : list Post) :
  NoDup (map _id l) -> findById_posts id (delete_first id l) = None.
Proof.
  induction l as [|q l IH]; simpl; [reflexivity|].
  intros Hnd. inversion Hnd as [|x xs Hnotin Hnd']; subst.
  destruct (id_eqb (_id q) id) eqn:E; simpl.
  - apply id_eqb_eq in E. subst id. now apply findById_posts_None.
  - rewrite E. auto.
Qed.

Lemma findById_delete_first_other (id other : Id) (l : list Post) :
  other <> id ->
  findById_posts other (delete_first id l) = findById_posts other l.
Proof.
  intros Hne. induction l as [|q l IH]; simpl; [reflexivity|].
  destruct (id_eqb (_id q) id) eqn:E; simpl.
  - apply id_eqb_eq in E.
    assert (Hq : id_eqb (_id q) other = false)
      by (apply id_eqb_neq; congruence).
    now rewrite Hq.
  - now rewrite IH.
Qed.

Lemma In_delete_first (id : Id) (l : list Post) (q : Post) :
  In q (delete_first id l) -> In q l.
Proof.
  induction l as [|r l IH]; simpl; [tauto|].
  destruct (id_eqb (_id r) id); simpl; tauto.
Qed.

Lemma NoDup_delete_first (id : Id) (l : list Post) :
  NoDup (map _id l) -> NoDup (map _id (delete_first id l)).
Proof.
  induction l as [|r l IH]; simpl; [auto|].
  intros Hnd. inversion Hnd as [|x xs Hnotin Hnd']; subst.
  destruct (id_eqb (_id r) id); simpl; [assumption|].
  constructor; [|auto].
  intros Hin. apply Hnotin. apply in_map_iff in Hin.
  destruct Hin as [q [Hq Hin]]. apply in_map_iff. exists q.
  split; [assumption | now apply In_delete_first in Hin].
Qed.

(** ** Facts about sorting *)

Section SortFacts.
Context {A K : Type}.
Variable geb : K -> K -> bool.
Variable key : A -> K.

Lemma insert_desc_perm (x : A) (l : list A) :
  Permutation (insert_desc geb key x l) (x :: l).
Proof.
  induction l as [|y l IH]; simpl; [reflexivity|].
  destruct (geb (key x) (key y)); [reflexivity|].
  rewrite IH. apply perm_swap.
Qed.

Lemma sort_desc_perm (l : list A) : Permutation (sort_desc geb key l) l.
Proof.
  induction l as [|x l IH]; simpl; [reflexivity|].
  rewrite insert_desc_perm. now apply perm_skip.
Qed.

Lemma sort_desc_length (l : list A) :
  List.length (sort_desc geb key l) = List.length l.
Proof. apply Permutation_length, sort_desc_perm. Qed.

Hypothesis geb_total : forall a b, geb a b = false -> geb b a = true.

Lemma insert_desc_HdRel (a x : A) (l : list A) :
  HdRel (key_ge geb key) a l -> (key_ge geb key) a x -> HdRel (key_ge geb key) a (insert_desc geb key x l).
Proof.
  intros Hl Hx. destruct l as [|y l]; simpl.
  - now constructor.
  - destruct (geb (key x) (key y)); constructor; [assumption|].
    now inversion Hl.
Qed.

Lemma insert_desc_sorted (x : A) (l : list A) :
  Sorted (key_ge geb key) l -> Sorted (key_ge geb key) (insert_desc geb key x l).
Proof.
  induction 1 as [|y l Hs IH Hhd]; simpl.
  - repeat constructor.
  - destruct (geb (key x) (key y)) eqn:E.
    + constructor; [now constructor | now constructor].
    + constructor; [exact IH|].
      apply insert_desc_HdRel; [assumption|].
      now apply geb_total.
Qed.

Lemma sort_desc_sorted (l : list A) : Sorted (key_ge geb key) (sort_desc geb key l).
Proof.
  induction l as [|x l IH]; simpl; [constructor|].
  now apply insert_desc_sorted.
Qed.
End SortFacts.

Lemma newer_or_same_trans : Transitive newer_or_same.
Proof. unfold Transitive, newer_or_same. intros; lia. Qed.

Lemma sort_createdAt_desc_newest_first (l : list Post) :
  newest_first (sort_createdAt_desc l).
Proof.
  unfold newest_first, sort_createdAt_desc.
  apply Sorted_StronglySorted; [exact newer_or_same_trans|].
  assert (Hs : Sorted (key_ge Z.geb createdAt) (sort_desc Z.geb createdAt l)).
  { apply sort_desc_sorted. intros a b H.
    rewrite Z.geb_leb in *. apply Z.leb_le. apply Z.leb_gt in H. lia. }
  revert Hs. generalize (sort_desc Z.geb createdAt l).
  assert (Himp : forall p q, key_ge Z.geb createdAt p q -> newer_or_same p q).
  { unfold key_ge, newer_or_same. intros p q H.
    rewrite Z.geb_leb in H. now apply Z.leb_le. }
  induction 1 as [|y l' Hs IH Hhd]; constructor; [assumption|].
  destruct Hhd; constructor; auto.
Qed.

Lemma sort_createdAt_desc_perm (l : list Post) :
  Permutation (sort_createdAt_desc l) l.
Proof. apply sort_desc_perm. Qed.

Lemma array_key_geb_total (a b : option Id) :
  array_key_geb a b = false -> array_key_geb b a = true.
Proof.
  destruct a as [x|], b as [y|]; simpl; try congruence.
  intros H. destruct (String.leb_total x y) as [H' | H']; congruence.
Qed.

Lemma sort_likes_desc_sorted (l : list Post) :
  Sorted likes_key_ge (sort_likes_desc l).
Proof.
  unfold sort_likes_desc.
  apply (sort_desc_sorted array_key_geb (fun p => greatest (likes p))).
  exact array_key_geb_total.
Qed.

Lemma Sorted_firstn {A : Type} (R : A -> A -> Prop) (n : nat) (l : list A) :
  Sorted R l -> Sorted R (firstn n l).
Proof.
  intros Hs. revert n. induction Hs as [|x l Hs IH Hhd]; intros [|n]; simpl;
    try constructor.
  - apply IH.
  - destruct Hhd; destruct n; simpl; constructor; assumption.
Qed.

Lemma Subseq_filter {A : Type} (f : A -> bool) (l : list A) :
  Subseq (filter f l) l.
Proof.
  induction l as [|x l IH]; simpl; [constructor|].
  destruct (f x); now constructor.
Qed.

Lemma Subseq_firstn {A : Type} (n : nat) (l : list A) :
  Subseq (firstn n l) l.
Proof.
  revert n. induction l as [|x l IH]; intros [|n]; simpl; try constructor.
  - clear. induction l as [|y l IH]; now constructor.
  - apply IH.
Qed.

Lemma Subseq_In {A : Type} (l1 l2 : list A) (x : A) :
  Subseq l1 l2 -> In x l1 -> In x l2.
Proof.
  induction 1 as [|y l1 l2 Hs IH|y l1 l2 Hs IH]; simpl; tauto.
Qed.

Lemma Subseq_StronglySorted {A : Type} (R : A -> A -> Prop) (l1 l2 : list A) :
  Subseq l1 l2 -> StronglySorted R l2 -> StronglySorted R l1.
Proof.
  induction 1 as [|y l1 l2 Hs IH|y l1 l2 Hs IH]; intros Hsorted.
  - constructor.
  - inversion Hsorted as [|a l Hl Hall]; subst. constructor; [auto|].
    rewrite Forall_forall in *. intros z Hz. apply Hall.
    eapply Subseq_In; eassumption.
  - inversion Hsorted; subst. auto.
Qed.

(** ** The like route *)

Lemma pull_likes_id (u : Id) (p : Post) : _id (pull_likes u p) = _id p.
Proof. reflexivity. Qed.

Lemma push_likes_id (u : Id) (p : Post) : _id (push_likes u p) = _id p.
Proof. reflexivity. Qed.

Lemma push_comments_id (c : Comment) (p : Post) : _id (push_comments c p) = _id p.
Proof. reflexivity. Qed.

Lemma set_caption_image_id (cap img : option string) (p : Post) :
  _id (set_caption_image cap img p) = _id p.
Proof. reflexivity. Qed.

(** The update the like route applies to the post it found. *)
Lemma like_post_found (db : DB) (postId U : Id) (P : Post) :
  findById_posts postId (posts db) = Some P ->
  like_post postId U db =
    let toggle := if includes (likes P) U then pull_likes U else push_likes U in
    let posts' := update_first postId toggle (posts db) in
    (mkResponse 200 (JsonPosts (sort_createdAt_desc posts')),
     mkDB posts' (users db)).
Proof.
  intros HP. unfold like_post. run_route. rewrite HP. simpl.
  rewrite (findById_posts_id _ _ _ HP).
  destruct (includes (likes P) U); reflexivity.
Qed.

Lemma toggle_id (U : Id) (b : bool) (p : Post) :
  _id ((if b then pull_likes U else push_likes U) p) = _id p.
Proof. destruct b; reflexivity. Qed.

Lemma In_pull (U x : Id) (l : list Id) :
  In x (filter (fun y => negb (id_eqb y U)) l) <-> In x l /\ x <> U.
Proof.
  rewrite filter_In. rewrite negb_true_iff, id_eqb_neq. tauto.
Qed.

Lemma pull_absent (U : Id) (l : list Id) :
  ~ In U l -> filter (fun y => negb (id_eqb y U)) l = l.
Proof.
  induction l as [|x l IH]; simpl; [reflexivity|].
  intros Hn. destruct (id_eqb x U) eqn:E; simpl.
  - apply id_eqb_eq in E. exfalso. auto.
  - rewrite IH; auto.
Qed.

Lemma count_occ_push_absent (U : Id) (l : list Id) :
  ~ In U l -> count_occ string_dec (l ++ [U]) U = 1.
Proof.
  unfold Id in *. intros Hn. rewrite count_occ_app.
  rewrite (proj1 (count_occ_not_In string_dec l U) Hn). simpl.
  destruct (string_dec U U); congruence.
Qed.

(** C1.  Like toggle.  For a stored post [P] and a caller [U], the like
    route answers 200 and leaves under P's identifier a post whose [likes]
    are P's without [U] when [U] was a member, and P's followed by [U]
    otherwise; when [U] was absent, [U] then occurs exactly once; and a
    second toggle by [U] leaves a [likes] with the same members as P's. *)
Theorem like_post_toggle (db : DB) (postId U : Id) (P : Post)
    (HP : findById_posts postId (posts db) = Some P) :
  let out1 := like_post postId U db in
  let out2 := like_post postId U (snd out1) in
  exists P1 P2 : Post,
    status (fst out1) = 200 /\
    findById_posts postId (posts (snd out1)) = Some P1 /\
    (In U (likes P) ->
       ~ In U (likes P1) /\
       forall x, In x (likes P1) <-> In x (likes P) /\ x <> U) /\
    (~ In U (likes P) ->
       likes P1 = likes P ++ [U] /\
       count_occ string_dec (likes P1) U = 1) /\
    status (fst out2) = 200 /\
    findById_posts postId (posts (snd out2)) = Some P2 /\
    (forall x, In x (likes P2) <-> In x (likes P)).
Proof.
  intros out1 out2.
  set (t1 := if includes (likes P) U then pull_likes U else push_likes U).
  assert (E1 : out1 =
    (mkResponse 200 (JsonPosts (sort_createdAt_desc (update_first postId t1 (posts db)))),
     mkDB (update_first postId t1 (posts db)) (users db))).
  { unfold out1. now rewrite (like_post_found db postId U P HP). }
  assert (HP1 : findById_posts postId (posts (snd out1)) = Some (t1 P)).
  { rewrite E1. simpl. apply findById_update_first_same; [|exact HP].
    intros p. apply toggle_id. }
  set (t2 := if includes (likes (t1 P)) U then pull_likes U else push_likes U).
  assert (HP2 : findById_posts postId (posts (snd out2)) = Some (t2 (t1 P))).
  { unfold out2. rewrite (like_post_found _ postId U _ HP1). simpl.
    apply findById_update_first_same; [|exact HP1].
    intros p. apply toggle_id. }
  exists (t1 P), (t2 (t1 P)).
  split; [now rewrite E1|].
  split; [exact HP1|].
  split.
  { intros Hin. apply includes_In in Hin. unfold t1. rewrite Hin. simpl.
    split; [|intros x; apply In_pull].
    rewrite In_pull. tauto. }
  split.
  { intros Hn. pose proof Hn as Hn'. apply includes_not_In in Hn'.
    unfold t1. rewrite Hn'. simpl.
    split; [reflexivity | now apply count_occ_push_absent]. }
  split.
  { unfold out2. now rewrite (like_post_found _ postId U _ HP1). }
  split; [exact HP2|].
  intros x. unfold t2, t1.
  destruct (includes (likes P) U) eqn:E; simpl.
  - (* U was a member: pulled, then pushed back *)
    assert (Hout : includes (filter (fun y => negb (id_eqb y U)) (likes P)) U = false).
    { apply includes_not_In. rewrite In_pull. tauto. }
    rewrite Hout. simpl. rewrite in_app_iff, In_pull. simpl.
    apply includes_In in E.
    destruct (string_dec x U) as [-> | Hne]; [tauto|].
    split; [intros [[H _] | [H | []]]; [assumption | congruence] | tauto].
  - (* U was absent: pushed, then pulled *)
    assert (Hin : includes (likes P ++ [U]) U = true).
    { apply includes_In. rewrite in_app_iff. simpl. tauto. }
    rewrite Hin. simpl. rewrite filter_app. simpl.
    rewrite id_eqb_refl. simpl. rewrite app_nil_r.
    apply includes_not_In in E. now rewrite pull_absent.
Qed.

(** A run of [like_post_toggle]: "u3" likes the first sample post, twice. *)
Lemma like_post_toggle_witness :
  findById_posts "p1" (posts sample_db) = Some first_post /\
  exists P1 P2 : Post,
    status (fst (like_post "p1" "u3" sample_db)) = 200 /\
    findById_posts "p1" (posts (snd (like_post "p1" "u3" sample_db))) = Some P1 /\
    (In "u3" (likes first_post) ->
       ~ In "u3" (likes P1) /\
       forall x, In x (likes P1) <-> In x (likes first_post) /\ x <> "u3") /\
    (~ In "u3" (likes first_post) ->
       likes P1 = likes first_post ++ ["u3"] /\
       count_occ string_dec (likes P1) "u3" = 1) /\
    status (fst (like_post "p1" "u3" (snd (like_post "p1" "u3" sample_db)))) = 200 /\
    findById_posts "p1"
      (posts (snd (like_post "p1" "u3" (snd (like_post "p1" "u3" sample_db)))))
      = Some P2 /\
    (forall x, In x (likes P2) <-> In x (likes first_post)).
Proof.
  split; [reflexivity|].
  apply (like_post_toggle sample_db "p1" "u3" first_post). reflexivity.
Defined.

Lemma like_post_not_found (db : DB) (postId U : Id) :
  findById_posts postId (posts db) = None ->
  like_post postId U db =
    (mkResponse 500 (JsonError "Cannot read properties of null"), db).
Proof.
  intros Hmiss. unfold like_post. run_route. now rewrite Hmiss.
Qed.

(** C7.  Like on a missing post.  When no stored post has the identifier
    named in the path, the like route answers 500 (the dereference of the
    [null] lookup result throws and the handler's [catch] reports it), so
    never 404, and the store is left as it was. *)
Theorem like_post_missing (db : DB) (postId U : Id)
    (Hmiss : findById_posts postId (posts db) = None) :
  let out := like_post postId U db in
  status (fst out) = 500 /\
  status (fst out) <> 404 /\
  (exists msg, payload (fst out) = JsonError msg) /\
  snd out = db.
Proof.
  intros out. unfold out. rewrite (like_post_not_found db postId U Hmiss). simpl.
  repeat split; [discriminate | now eexists].
Qed.

(** A run of [like_post_missing]: no sample post is called "p9". *)
Lemma like_post_missing_witness :
  findById_posts "p9" (posts sample_db) = None /\
  status (fst (like_post "p9" "u2" sample_db)) = 500 /\
  status (fst (like_post "p9" "u2" sample_db)) <> 404 /\
  (exists msg, payload (fst (like_post "p9" "u2" sample_db)) = JsonError msg) /\
  snd (like_post "p9" "u2" sample_db) = sample_db.
Proof.
  split; [reflexivity|].
  apply (like_post_missing sample_db "p9" "u2"). reflexivity.
Defined.

(** ** Validation *)

Lemma isLength_iff (min max : nat) (s : string) :
  isLength min max s = true <-> min <= String.length s <= max.
Proof.
  unfold isLength. rewrite andb_true_iff, !Nat.leb_le. tauto.
Qed.

Lemma caption_chain_present (c : string) :
  caption_chain (Some c) =
    if isLength 5 100 c then []
    else ["Caption must be between 5 and 100 characters"].
Proof. unfold caption_chain. simpl. now destruct (isLength 5 100 c). Qed.

Lemma caption_chain_missing :
  caption_chain None =
    ["Caption in required"; "Caption must be between 5 and 100 characters"].
Proof. reflexivity. Qed.

Lemma caption_chain_ok (c : string) :
  caption_chain (Some c) = [] <-> 5 <= String.length c <= 100.
Proof.
  rewrite caption_chain_present, <- isLength_iff.
  destruct (isLength 5 100 c); split; congruence.
Qed.

Lemma valid_body_iff (cap img : option string) :
  valid_body cap img <->
  exists c i, cap = Some c /\ img = Some i /\ 5 <= String.length c <= 100.
Proof.
  unfold valid_body, validationResult. simpl. rewrite app_nil_r. split.
  - intros H. apply app_eq_nil in H. destruct H as [Hc Hi].
    destruct cap as [c|]; [|discriminate].
    destruct img as [i|]; [|discriminate].
    exists c, i. repeat split; now apply caption_chain_ok.
  - intros [c [i [-> [-> Hlen]]]].
    apply caption_chain_ok in Hlen. now rewrite Hlen.
Qed.

Lemma create_post_rejected (newId : Id) (now : Z) (cap img : option string)
    (caller : Id) (db : DB) (e : string) (rest : list string) :
  validationResult [caption_chain cap; image_chain img] = e :: rest ->
  create_post newId now cap img caller db = (mkResponse 400 (JsonError e), db).
Proof. intros H. unfold create_post. cbv zeta. rewrite H. reflexivity. Qed.

Lemma create_post_accepted (newId : Id) (now : Z) (c i : string)
    (caller : Id) (db : DB) :
  5 <= String.length c <= 100 ->
  create_post newId now (Some c) (Some i) caller db =
    let posts' := posts db ++ [mkPost newId c i caller [] [] now] in
    (mkResponse 200 (JsonPosts (sort_createdAt_desc posts')),
     mkDB posts' (users db)).
Proof.
  intros Hlen. unfold create_post. cbv zeta.
  assert (Hv : valid_body (Some c) (Some i))
    by (apply valid_body_iff; now exists c, i).
  unfold valid_body in Hv. rewrite Hv. reflexivity.
Qed.

Lemma update_post_rejected (postId : Id) (cap img : option string)
    (caller : Id) (db : DB) (e : string) (rest : list string) :
  validationResult [caption_chain cap; image_chain img] = e :: rest ->
  update_post postId cap img caller db = (mkResponse 400 (JsonError e), db).
Proof. intros H. unfold update_post. cbv zeta. rewrite H. reflexivity. Qed.

Lemma update_post_valid (postId : Id) (cap img : option string)
    (caller : Id) (db : DB) (P : Post) :
  valid_body cap img ->
  findById_posts postId (posts db) = Some P ->
  update_post postId cap img caller db =
    if id_eqb (userId P) caller then
      let posts' := update_first postId (set_caption_image cap img) (posts db) in
      (mkResponse 200 (JsonPosts (sort_createdAt_desc posts')),
       mkDB posts' (users db))
    else
      (mkResponse 403 (JsonError "You can't update other posts"), db).
Proof.
  intros Hv HP. unfold update_post. cbv zeta.
  unfold valid_body in Hv. rewrite Hv. run_route. rewrite HP. simpl.
  destruct (id_eqb (userId P) caller); reflexivity.
Qed.

Lemma delete_post_found (postId caller : Id) (db : DB) (P : Post) :
  findById_posts postId (posts db) = Some P ->
  delete_post postId caller db =
    if id_eqb (userId P) caller then
      let posts' := delete_first postId (posts db) in
      (mkResponse 200 (JsonPosts (sort_createdAt_desc posts')),
       mkDB posts' (users db))
    else
      (mkResponse 403 (JsonError "You can't delete other posts"), db).
Proof.
  intros HP. unfold delete_post. run_route. rewrite HP. simpl.
  destruct (id_eqb (userId P) caller); reflexivity.
Qed.

Lemma invalid_body_errors (cap img : option string) :
  ~ valid_body cap img ->
  exists e rest, validationResult [caption_chain cap; image_chain img] = e :: rest.
Proof.
  unfold valid_body. intros Hn.
  destruct (validationResult [caption_chain cap; image_chain img]) as [|e rest];
    [congruence | now exists e, rest].
Qed.

(** C3.  Caption bounds on create.  A caption of 4 or of 101 characters is
    answered 400 with the message of the first rule it breaks, the length
    rule, and nothing is stored; a caption of exactly 5 or exactly 100
    characters passes the caption rules and, with an image in the body, the
    route answers 200 with the post stored; the caption rules accept exactly
    the lengths from 5 to 100, both ends included. *)
Theorem create_post_caption_bounds (db : DB) (newId : Id) (now : Z)
    (cap : string) (img : option string) (caller : Id) :
  (String.length cap = 4 \/ String.length cap = 101 ->
     create_post newId now (Some cap) img caller db =
       (mkResponse 400
          (JsonError "Caption must be between 5 and 100 characters"), db)) /\
  (String.length cap = 5 \/ String.length cap = 100 ->
     caption_chain (Some cap) = [] /\
     forall i : string,
       let out := create_post newId now (Some cap) (Some i) caller db in
       status (fst out) = 200 /\
       posts (snd out) = posts db ++ [mkPost newId cap i caller [] [] now] /\
       In (mkPost newId cap i caller [] [] now) (posts_of (fst out))) /\
  (caption_chain (Some cap) = [] <-> 5 <= String.length cap <= 100).
Proof.
  split; [|split].
  - intros Hlen.
    assert (Hbad : isLength 5 100 cap = false).
    { destruct (isLength 5 100 cap) eqn:E; [|reflexivity].
      apply isLength_iff in E. lia. }
    eapply create_post_rejected.
    unfold validationResult. simpl. rewrite caption_chain_present, Hbad.
    reflexivity.
  - intros Hlen.
    assert (Hin : 5 <= String.length cap <= 100) by lia.
    split; [now apply caption_chain_ok|].
    intros i. rewrite (create_post_accepted newId now cap i caller db Hin).
    simpl. repeat split.
    unfold posts_of. simpl.
    apply (Permutation_in _ (Permutation_sym (sort_createdAt_desc_perm _))).
    apply in_or_app. right. now left.
  - apply caption_chain_ok.
Qed.

(** Runs of [create_post_caption_bounds] at the four boundary lengths. *)
Lemma create_post_caption_bounds_witness :
  (String.length caption4 = 4 /\ String.length caption101 = 101 /\
   String.length caption5 = 5 /\ String.length caption100 = 100) /\
  status (fst (create_post "p3" 3000 (Some caption4) (Some "c.png") "u2" sample_db)) = 400 /\
  status (fst (create_post "p3" 3000 (Some caption101) (Some "c.png") "u2" sample_db)) = 400 /\
  status (fst (create_post "p3" 3000 (Some caption5) (Some "c.png") "u2" sample_db)) = 200 /\
  status (fst (create_post "p3" 3000 (Some caption100) (Some "c.png") "u2" sample_db)) = 200.
Proof.
  split; [repeat split; reflexivity|].
  split; [|split; [|split]].
  - destruct (create_post_caption_bounds sample_db "p3" 3000 caption4
                (Some "c.png") "u2") as [H _].
    rewrite H; [reflexivity | left; reflexivity].
  - destruct (create_post_caption_bounds sample_db "p3" 3000 caption101
                (Some "c.png") "u2") as [H _].
    rewrite H; [reflexivity | right; reflexivity].
  - destruct (create_post_caption_bounds sample_db "p3" 3000 caption5
                (Some "c.png") "u2") as [_ [H _]].
    destruct H as [_ H]; [left; reflexivity|].
    apply (H "c.png").
  - destruct (create_post_caption_bounds sample_db "p3" 3000 caption100
                (Some "c.png") "u2") as [_ [H _]].
    destruct H as [_ H]; [right; reflexivity|].
    apply (H "c.png").
Defined.

(** C10.  Validation comes before the ownership check on update.  Whenever
    the body is invalid (caption missing, caption shorter than 5 or longer
    than 100, or image missing) the update route answers 400 with the first
    recorded message and leaves the store alone, whoever the caller is and
    whoever owns the post: a caller who is not the owner gets 400, not 403. *)
Theorem update_post_validates_first (db : DB) (postId : Id)
    (cap img : option string) (caller : Id)
    (Hbad : cap = None \/
            (exists c, cap = Some c /\
                       (String.length c < 5 \/ 100 < String.length c)) \/
            img = None) :
  let out := update_post postId cap img caller db in
  status (fst out) = 400 /\
  status (fst out) <> 403 /\
  (exists e rest,
     validationResult [caption_chain cap; image_chain img] = e :: rest /\
     payload (fst out) = JsonError e) /\
  snd out = db /\
  (forall P, findById_posts postId (posts db) = Some P ->
             userId P <> caller -> status (fst out) = 400).
Proof.
  assert (Hn : ~ valid_body cap img).
  { rewrite valid_body_iff. intros [c [i [Hc [Hi Hlen]]]].
    destruct Hbad as [H | [[c' [H Hl]] | H]]; try congruence.
    rewrite Hc in H. injection H as <-. lia. }
  destruct (invalid_body_errors cap img Hn) as [e [rest He]].
  intros out. unfold out.
  rewrite (update_post_rejected postId cap img caller db e rest He). simpl.
  repeat split; try discriminate.
  exists e, rest. now split.
Qed.

(** A run of [update_post_validates_first]: "u2", who does not own "p1",
    sends a three-character caption. *)
Lemma update_post_validates_first_witness :
  (findById_posts "p1" (posts sample_db) = Some first_post /\
   userId first_post <> "u2") /\
  status (fst (update_post "p1" (Some "hey") (Some "c.png") "u2" sample_db)) = 400.
Proof.
  split; [split; [reflexivity | discriminate]|].
  apply (update_post_validates_first sample_db "p1" (Some "hey") (Some "c.png") "u2").
  right. left. exists "hey". split; [reflexivity | left; simpl; lia].
Defined.

(** C9.  Frame of an update.  When the update route answers 200 for a
    stored post [P], the post then stored under P's identifier has the
    caption and the image of the body and P's own [userId], [likes],
    [comments] and [createdAt]; and the caller is P's owner. *)
Theorem update_post_frame (db : DB) (postId : Id) (cap img : option string)
    (caller : Id) (P : Post)
    (HP : findById_posts postId (posts db) = Some P)
    (Hok : status (fst (update_post postId cap img caller db)) = 200) :
  exists P' : Post,
    findById_posts postId (posts (snd (update_post postId cap img caller db)))
      = Some P' /\
    cap = Some (caption P') /\
    img = Some (image P') /\
    _id P' = _id P /\
    userId P' = userId P /\
    likes P' = likes P /\
    comments P' = comments P /\
    createdAt P' = createdAt P /\
    userId P = caller.
Proof.
  destruct (validationResult [caption_chain cap; image_chain img])
    as [|e rest] eqn:Ev.
  - pose proof Ev as Hv. apply valid_body_iff in Hv.
    destruct Hv as [c [i [-> [-> Hlen]]]].
    rewrite (update_post_valid postId _ _ caller db P Ev HP) in *.
    destruct (id_eqb (userId P) caller) eqn:Eo; [|discriminate Hok].
    exists (set_caption_image (Some c) (Some i) P). simpl.
    split.
    { apply findById_update_first_same; [|exact HP].
      intros p. reflexivity. }
    repeat split. now apply id_eqb_eq.
  - rewrite (update_post_rejected postId cap img caller db e rest Ev) in Hok.
    discriminate Hok.
Qed.

(** A run of [update_post_frame]: "u1" updates "p1", a post of theirs. *)
Lemma update_post_frame_witness :
  findById_posts "p1" (posts sample_db) = Some first_post /\
  status (fst (update_post "p1" (Some "edited") (Some "c.png") "u1" sample_db)) = 200 /\
  exists P' : Post,
    findById_posts "p1"
      (posts (snd (update_post "p1" (Some "edited") (Some "c.png") "u1" sample_db)))
      = Some P' /\
    Some "edited" = Some (caption P') /\
    Some "c.png" = Some (image P') /\
    _id P' = _id first_post /\
    userId P' = userId first_post /\
    likes P' = likes first_post /\
    comments P' = comments first_post /\
    createdAt P' = createdAt first_post /\
    userId first_post = "u1".
Proof.
  split; [reflexivity|]. split; [reflexivity|].
  apply (update_post_frame sample_db "p1" (Some "edited") (Some "c.png") "u1" first_post);
    reflexivity.
Defined.

(** C2, as stated, fails.  "u2" does not own the sample post "p1"; their
    update with a three-character caption is answered 400, not 403. *)
Lemma ownership_guard_counterexample :
  findById_posts "p1" (posts sample_db) = Some first_post /\
  userId first_post = "u1" /\
  "u2" <> "u1" /\
  status (fst (update_post "p1" (Some "hey") (Some "c.png") "u2" sample_db)) = 400 /\
  status (fst (update_post "p1" (Some "hey") (Some "c.png") "u2" sample_db)) <> 403.
Proof. repeat split; discriminate. Qed.

(** C2, amended.  For a stored post [P] and a caller [B] other than its
    owner: delete answers 403; update answers 403 when the body passes
    validation and 400 when it does not; in all three cases the store is
    left as it was.  For the owner: delete answers 200, leaves no post under
    P's identifier and leaves every other post in place; update with a valid
    body answers 200 and leaves under P's identifier a post with the
    caption and the image of the body. *)
Theorem ownership_guard (db : DB) (postId B : Id) (P : Post)
    (cap img : option string)
    (HP : findById_posts postId (posts db) = Some P)
    (HB : B <> userId P) :
  delete_post postId B db =
    (mkResponse 403 (JsonError "You can't delete other posts"), db) /\
  (valid_body cap img ->
     update_post postId cap img B db =
       (mkResponse 403 (JsonError "You can't update other posts"), db)) /\
  (~ valid_body cap img ->
     status (fst (update_post postId cap img B db)) = 400 /\
     snd (update_post postId cap img B db) = db) /\
  (unique_ids db ->
     let out := delete_post postId (userId P) db in
     status (fst out) = 200 /\
     findById_posts postId (posts (snd out)) = None /\
     (forall other, other <> postId ->
        findById_posts other (posts (snd out)) = findById_posts other (posts db))) /\
  (valid_body cap img ->
     let out := update_post postId cap img (userId P) db in
     status (fst out) = 200 /\
     exists P' : Post,
       findById_posts postId (posts (snd out)) = Some P' /\
       cap = Some (caption P') /\ img = Some (image P')).
Proof.
  assert (Hne : id_eqb (userId P) B = false) by (apply id_eqb_neq; congruence).
  split; [|split; [|split; [|split]]].
  - rewrite (delete_post_found postId B db P HP), Hne. reflexivity.
  - intros Hv. rewrite (update_post_valid postId cap img B db P Hv HP), Hne.
    reflexivity.
  - intros Hn. destruct (invalid_body_errors cap img Hn) as [e [rest He]].
    rewrite (update_post_rejected postId cap img B db e rest He). now split.
  - intros Hu out. unfold out.
    rewrite (delete_post_found postId (userId P) db P HP), id_eqb_refl. simpl.
    split; [reflexivity|]. split.
    + now apply findById_delete_first_same.
    + intros other Hother. now apply findById_delete_first_other.
  - intros Hv out. unfold out.
    rewrite (update_post_valid postId cap img (userId P) db P Hv HP), id_eqb_refl.
    simpl. split; [reflexivity|].
    apply valid_body_iff in Hv. destruct Hv as [c [i [-> [-> Hlen]]]].
    exists (set_caption_image (Some c) (Some i) P). split.
    + apply findById_update_first_same; [|exact HP]. intros p. reflexivity.
    + now split.
Qed.

(** A run of [ownership_guard]: "u2" against the sample post "p1" of "u1". *)
Lemma ownership_guard_witness :
  (findById_posts "p1" (posts sample_db) = Some first_post /\
   "u2" <> userId first_post /\
   valid_body (Some "edited") (Some "c.png") /\
   unique_ids sample_db) /\
  delete_post "p1" "u2" sample_db =
    (mkResponse 403 (JsonError "You can't delete other posts"), sample_db) /\
  update_post "p1" (Some "edited") (Some "c.png") "u2" sample_db =
    (mkResponse 403 (JsonError "You can't update other posts"), sample_db) /\
  findById_posts "p1" (posts (snd (delete_post "p1" "u1" sample_db))) = None.
Proof.
  assert (Hu : unique_ids sample_db).
  { unfold unique_ids. simpl.
    repeat constructor; simpl; intuition discriminate. }
  split; [repeat split; try reflexivity; try discriminate; exact Hu|].
  destruct (ownership_guard sample_db "p1" "u2" first_post
              (Some "edited") (Some "c.png"))
    as [Hdel [Hupd [_ [Hown _]]]]; [reflexivity | discriminate |].
  split; [exact Hdel|]. split; [apply Hupd; reflexivity|].
  apply (Hown Hu).
Defined.

(** ** Comments *)

Lemma omit_spec (obj : JsonObject) (key k v : string) :
  In (k, v) (omit (Some obj) key) <-> In (k, v) obj /\ k <> key.
Proof.
  unfold omit. rewrite filter_In. simpl.
  rewrite negb_true_iff, String.eqb_neq. tauto.
Qed.

Lemma omit_no_key (o : option JsonObject) (key : string) :
  ~ In key (map fst (omit o key)).
Proof.
  intros Hin. apply in_map_iff in Hin. destruct Hin as [[k v] [Hk Hin]].
  simpl in Hk. subst k. destruct o as [obj|]; [|exact Hin].
  apply omit_spec in Hin. now destruct Hin.
Qed.

Lemma comment_on_post_missing_text (postId caller : Id) (db : DB) :
  comment_on_post postId None caller db =
    (mkResponse 400 (JsonError "Comment is required"), db).
Proof. reflexivity. Qed.

Lemma comment_on_post_found (postId caller : Id) (t : string) (db : DB) (P : Post) :
  findById_posts postId (posts db) = Some P ->
  comment_on_post postId (Some t) caller db =
    let snapshot :=
      omit (option_map toJSON (findById_users caller (users db))) "password" in
    let posts' :=
      update_first postId (push_comments (mkComment snapshot (Some t))) (posts db) in
    (mkResponse 200 (JsonPosts (sort_createdAt_desc posts')),
     mkDB posts' (users db)).
Proof.
  intros HP. unfold comment_on_post. run_route. rewrite HP. simpl.
  now rewrite (findById_posts_id _ _ _ HP).
Qed.

(** C6.  Comment.  For a stored post [P], a stored commenter [U] and a
    comment text, the comment route answers 200; the post then stored under
    P's identifier is P with exactly one entry appended to [comments]; the
    entry holds the text and a snapshot of the commenter that is the
    commenter's document without its [password] property; every other post
    and the users are as before. *)
Theorem comment_on_post_appends (db : DB) (postId U : Id) (t : string)
    (P : Post) (u : User)
    (HP : findById_posts postId (posts db) = Some P)
    (HU : findById_users U (users db) = Some u) :
  let out := comment_on_post postId (Some t) U db in
  exists (P' : Post) (c : Comment),
    status (fst out) = 200 /\
    findById_posts postId (posts (snd out)) = Some P' /\
    comments P' = comments P ++ [c] /\
    (_id P' = _id P /\ caption P' = caption P /\ image P' = image P /\
     userId P' = userId P /\ likes P' = likes P /\
     createdAt P' = createdAt P) /\
    comment c = Some t /\
    (forall k v, In (k, v) (userboi c) <-> In (k, v) (toJSON u) /\ k <> "password") /\
    ~ In "password" (map fst (userboi c)) /\
    List.length (posts (snd out)) = List.length (posts db) /\
    (forall q, _id q <> postId -> (In q (posts (snd out)) <-> In q (posts db))) /\
    (forall other, other <> postId ->
       findById_posts other (posts (snd out)) = findById_posts other (posts db)) /\
    users (snd out) = users db.
Proof.
  intros out. unfold out.
  rewrite (comment_on_post_found postId U t db P HP), HU. simpl.
  set (c := mkComment (omit (Some (toJSON u)) "password") (Some t)).
  exists (push_comments c P), c.
  split; [reflexivity|]. split.
  { apply findById_update_first_same; [|exact HP]. intros p. reflexivity. }
  split; [reflexivity|]. split; [repeat split|].
  split; [reflexivity|]. split.
  { intros k v. apply omit_spec. }
  split; [apply omit_no_key|]. split.
  { apply length_update_first. }
  split.
  { intros q Hq. apply In_update_first_other; [|exact Hq].
    intros p. reflexivity. }
  split; [|reflexivity].
  intros other Hother. apply findById_update_first_other; [|exact Hother].
  intros p. reflexivity.
Qed.

(** A run of [comment_on_post_appends]: "u2" comments on the sample post
    "p1"; the stored snapshot is the document of "u2" without the password. *)
Lemma comment_on_post_appends_witness :
  (findById_posts "p1" (posts sample_db) = Some first_post /\
   findById_users "u2" (users sample_db) = Some bob /\
   In ("password", "hunter2") (toJSON bob)) /\
  exists (P' : Post) (c : Comment),
    status (fst (comment_on_post "p1" (Some "nice") "u2" sample_db)) = 200 /\
    findById_posts "p1" (posts (snd (comment_on_post "p1" (Some "nice") "u2" sample_db)))
      = Some P' /\
    comments P' = comments first_post ++ [c] /\
    comment c = Some "nice" /\
    ~ In "password" (map fst (userboi c)).
Proof.
  split; [repeat split; simpl; tauto|].
  destruct (comment_on_post_appends sample_db "p1" "u2" "nice" first_post bob)
    as [P' [c [H1 [H2 [H3 [_ [H5 [_ [H7 _]]]]]]]]]; [reflexivity | reflexivity |].
  exists P', c. repeat split; assumption.
Defined.

(** C8, as stated, fails for the empty string: the only rule on the comment
    field is that it is present.  "u2" sends the empty text for the sample
    post "p1"; the route answers 200 and an entry is appended. *)
Lemma comment_on_post_empty_text_counterexample :
  comment_chain (Some "") = [] /\
  status (fst (comment_on_post "p1" (Some "") "u2" sample_db)) = 200 /\
  status (fst (comment_on_post "p1" (Some "") "u2" sample_db)) <> 400 /\
  comments first_post = [] /\
  option_map comments
    (findById_posts "p1" (posts (snd (comment_on_post "p1" (Some "") "u2" sample_db))))
    = Some [mkComment [("_id", "u2"); ("username", "bob")] (Some "")].
Proof. repeat split; discriminate. Qed.

(** C8, amended.  The comment route requires the comment field to be
    present: a request without it is answered 400 with "Comment is
    required" and the store is left as it was; a request with the field
    present passes validation whatever the text, the empty string
    included, and is never answered 400. *)
Theorem comment_on_post_requires_presence (db : DB) (postId caller : Id) :
  comment_on_post postId None caller db =
    (mkResponse 400 (JsonError "Comment is required"), db) /\
  (forall t : string,
     comment_chain (Some t) = [] /\
     status (fst (comment_on_post postId (Some t) caller db)) <> 400).
Proof.
  split; [reflexivity|].
  intros t. split; [reflexivity|].
  destruct (findById_posts postId (posts db)) as [P|] eqn:HP.
  - rewrite (comment_on_post_found postId caller t db P HP). simpl. discriminate.
  - unfold comment_on_post. run_route. rewrite HP. simpl. discriminate.
Qed.

(** ** Listings *)

Lemma built_db_is_sample_db : built_db = sample_db.
Proof. reflexivity. Qed.

Lemma get_all_posts_eq (db : DB) :
  get_all_posts db = (mkResponse 200 (JsonPosts (sort_createdAt_desc (posts db))), db).
Proof. reflexivity. Qed.

Lemma get_user_posts_by_id_eq (uid : Id) (db : DB) :
  get_user_posts_by_id uid db =
    (mkResponse 200
       (JsonPosts (filter (fun p => id_eqb (userId p) uid) (posts db))), db).
Proof. reflexivity. Qed.

Lemma trending_posts_eq (db : DB) :
  trending_posts db =
    (mkResponse 200 (JsonPosts (limit 5 (sort_likes_desc (posts db)))), db).
Proof. reflexivity. Qed.

(** C4, as stated, fails for the listing by user.  In the sample store,
    which the routes build by two creations of "u1", the listing of the
    posts of "u1" comes oldest first. *)
Lemma user_posts_order_counterexample :
  built_db = sample_db /\
  payload (fst (get_user_posts_by_id "u1" sample_db))
    = JsonPosts [first_post; second_post] /\
  (createdAt first_post < createdAt second_post)%Z /\
  ~ newest_first (posts_of (fst (get_user_posts_by_id "u1" sample_db))).
Proof.
  split; [reflexivity|]. split; [reflexivity|]. split; [reflexivity|].
  intros Hs. unfold posts_of in Hs. simpl in Hs.
  inversion Hs as [|a l _ Hall]; subst.
  inversion Hall as [|b l' Hrel _]; subst.
  unfold newer_or_same in Hrel. simpl in Hrel. lia.
Qed.

(** C4, amended.  In every store, [GET /] answers 200 with all the stored
    posts, newest first.  [GET /userposts/:userId] answers 200 with exactly
    the stored posts of that user, in the order the store holds them: no
    sort is applied, so the listing is newest first when the store already
    holds the posts that way.  Neither route changes the store. *)
Theorem listing_order (db : DB) (uid : Id) :
  (exists l : list Post,
     get_all_posts db = (mkResponse 200 (JsonPosts l), db) /\
     Permutation l (posts db) /\
     newest_first l) /\
  (exists l : list Post,
     get_user_posts_by_id uid db = (mkResponse 200 (JsonPosts l), db) /\
     (forall p, In p l <-> In p (posts db) /\ userId p = uid) /\
     Subseq l (posts db) /\
     (newest_first (posts db) -> newest_first l)).
Proof.
  split.
  - exists (sort_createdAt_desc (posts db)).
    split; [apply get_all_posts_eq|].
    split; [apply sort_createdAt_desc_perm | apply sort_createdAt_desc_newest_first].
  - exists (filter (fun p => id_eqb (userId p) uid) (posts db)).
    split; [apply get_user_posts_by_id_eq|]. split.
    { intros p. rewrite filter_In, id_eqb_eq. tauto. }
    split; [apply Subseq_filter|].
    apply Subseq_StronglySorted, Subseq_filter.
Qed.

(** ** Trending *)

(** What the trending route guarantees in every store: a 200 answer with at
    most five of the stored posts, ordered by the greatest element of
    [likes], descending. *)
Lemma trending_posts_at_most_5 (db : DB) :
  exists l : list Post,
    trending_posts db = (mkResponse 200 (JsonPosts l), db) /\
    List.length l <= 5 /\
    (forall p, In p l -> In p (posts db)) /\
    Sorted likes_key_ge l.
Proof.
  exists (limit 5 (sort_likes_desc (posts db))).
  split; [apply trending_posts_eq|]. unfold limit. split.
  { apply firstn_le_length. }
  split.
  { intros p Hin. apply (Subseq_In _ _ _ (Subseq_firstn _ _)) in Hin.
    apply (Permutation_in _ (sort_desc_perm _ _ _) Hin). }
  apply Sorted_firstn, sort_likes_desc_sorted.
Qed.

(** C5.  Trending, at the sample store (the first post has two likes, its
    greatest liker is "u2"; the second has one like, by "u3").  The route
    answers with the second post in front of the first: the posts come
    ordered by the greatest element of [likes], not by the number of likes,
    and the answer is not ordered by like count. *)
Theorem trending_posts_not_by_count :
  built_db = sample_db /\
  payload (fst (trending_posts sample_db)) = JsonPosts [second_post; first_post] /\
  List.length (likes second_post) = 1 /\
  List.length (likes first_post) = 2 /\
  ~ most_liked_first (posts_of (fst (trending_posts sample_db))).
Proof.
  split; [reflexivity|]. split; [reflexivity|].
  split; [reflexivity|]. split; [reflexivity|].
  intros Hs. unfold posts_of in Hs. simpl in Hs.
  inversion Hs as [|a l _ Hhd]; subst.
  inversion Hhd as [|b l' Hrel]; subst.
  unfold more_or_same_likes in Hrel. simpl in Hrel. lia.
Qed.

(** ** The store invariant *)

Lemma delete_post_not_found (postId caller : Id) (db : DB) :
  findById_posts postId (posts db) = None ->
  delete_post postId caller db =
    (mkResponse 500 (JsonError "Cannot read properties of null"), db).
Proof.
  intros Hmiss. unfold delete_post. run_route. now rewrite Hmiss.
Qed.

Lemma update_post_not_found (postId : Id) (cap img : option string)
    (caller : Id) (db : DB) :
  valid_body cap img ->
  findById_posts postId (posts db) = None ->
  update_post postId cap img caller db =
    (mkResponse 500 (JsonError "Cannot read properties of null"), db).
Proof.
  intros Hv Hmiss. unfold update_post. cbv zeta.
  unfold valid_body in Hv. rewrite Hv. run_route. now rewrite Hmiss.
Qed.

Lemma comment_on_post_not_found (postId caller : Id) (t : string) (db : DB) :
  findById_posts postId (posts db) = None ->
  comment_on_post postId (Some t) caller db =
    (mkResponse 500 (JsonError "Cannot read properties of null"), db).
Proof.
  intros Hmiss. unfold comment_on_post. run_route. now rewrite Hmiss.
Qed.

Lemma NoDup_snoc (x : Id) (l : list Id) :
  NoDup l -> ~ In x l -> NoDup (l ++ [x]).
Proof.
  induction 1 as [|y l Hy Hnd IH]; simpl; intros Hx.
  - repeat constructor. exact Hx.
  - constructor; [|apply IH; tauto].
    rewrite in_app_iff. simpl. intros [H | [H | []]]; [tauto|].
    apply Hx. now left.
Qed.

Lemma unique_ids_update_first (db : DB) (id : Id) (f : Post -> Post) :
  (forall p, _id (f p) = _id p) ->
  unique_ids db ->
  unique_ids (mkDB (update_first id f (posts db)) (users db)).
Proof.
  intros Hf Hu. unfold unique_ids in *. simpl.
  now rewrite map_id_update_first.
Qed.

(** The routes that write keep the identifiers of the stored posts
    distinct; creation does when the identifier it is handed is new. *)
Lemma routes_keep_unique_ids (db : DB) (Hu : unique_ids db) :
  (forall postId U, unique_ids (snd (like_post postId U db))) /\
  (forall postId caller, unique_ids (snd (delete_post postId caller db))) /\
  (forall postId cap img caller,
     unique_ids (snd (update_post postId cap img caller db))) /\
  (forall postId text caller,
     unique_ids (snd (comment_on_post postId text caller db))) /\
  (forall newId now cap img caller,
     ~ In newId (map _id (posts db)) ->
     unique_ids (snd (create_post newId now cap img caller db))).
Proof.
  split; [|split; [|split; [|split]]].
  - intros postId U.
    destruct (findById_posts postId (posts db)) as [P|] eqn:HP.
    + rewrite (like_post_found db postId U P HP). simpl.
      apply unique_ids_update_first; [|exact Hu]. intros p. apply toggle_id.
    + now rewrite (like_post_not_found db postId U HP).
  - intros postId caller.
    destruct (findById_posts postId (posts db)) as [P|] eqn:HP.
    + rewrite (delete_post_found postId caller db P HP).
      destruct (id_eqb (userId P) caller); simpl; [|exact Hu].
      unfold unique_ids. simpl. now apply NoDup_delete_first.
    + now rewrite (delete_post_not_found postId caller db HP).
  - intros postId cap img caller.
    destruct (validationResult [caption_chain cap; image_chain img])
      as [|e rest] eqn:Ev.
    + destruct (findById_posts postId (posts db)) as [P|] eqn:HP.
      * rewrite (update_post_valid postId cap img caller db P Ev HP).
        destruct (id_eqb (userId P) caller); simpl; [|exact Hu].
        apply unique_ids_update_first; [|exact Hu]. intros p. reflexivity.
      * now rewrite (update_post_not_found postId cap img caller db Ev HP).
    + now rewrite (update_post_rejected postId cap img caller db e rest Ev).
  - intros postId [t|] caller; [|exact Hu].
    destruct (findById_posts postId (posts db)) as [P|] eqn:HP.
    + rewrite (comment_on_post_found postId caller t db P HP). simpl.
      apply unique_ids_update_first; [|exact Hu]. intros p. reflexivity.
    + now rewrite (comment_on_post_not_found postId caller t db HP).
  - intros newId now cap img caller Hfresh.
    destruct (validationResult [caption_chain cap; image_chain img])
      as [|e rest] eqn:Ev.
    + pose proof Ev as Hv. apply valid_body_iff in Hv.
      destruct Hv as [c [i [-> [-> Hlen]]]].
      rewrite (create_post_accepted newId now c i caller db Hlen). simpl.
      unfold unique_ids in *. simpl. rewrite map_app. simpl.
      now apply NoDup_snoc.
    + now rewrite (create_post_rejected newId now cap img caller db e rest Ev).
Qed.

(** ** What any request may do to the stored posts *)

Lemma evolves_refl (p : Post) : evolves p p.
Proof.
  repeat split. exists []. now rewrite app_nil_r.
Qed.

Lemma findById_posts_app (id : Id) (l l' : list Post) (p : Post) :
  findById_posts id l = Some p -> findById_posts id (l ++ l') = Some p.
Proof.
  induction l as [|q l IH]; simpl; [discriminate|].
  destruct (id_eqb (_id q) id); auto.
Qed.

Lemma findById_update_first_evolves (id id' : Id) (f : Post -> Post)
    (l : list Post) (p p' : Post) :
  (forall q, evolves q (f q)) ->
  findById_posts id l = Some p ->
  findById_posts id (update_first id' f l) = Some p' ->
  evolves p p'.
Proof.
  intros Hf Hp Hp'.
  assert (Hid : forall q, _id (f q) = _id q) by (intros q; apply Hf).
  destruct (string_dec id id') as [-> | Hne].
  - rewrite (findById_update_first_same id' f Hid l p Hp) in Hp'.
    injection Hp' as <-. apply Hf.
  - rewrite (findById_update_first_other id' f Hid l id Hne) in Hp'.
    rewrite Hp in Hp'. injection Hp' as <-. apply evolves_refl.
Qed.

(** The store after a request, by cases on what the route wrote. *)
Lemma router_writes (req : Request) (db : DB) :
  users (snd (router req db)) = users db /\
  (posts (snd (router req db)) = posts db \/
   (exists id f, (forall q, evolves q (f q)) /\
      posts (snd (router req db)) = update_first id f (posts db)) \/
   (exists id, posts (snd (router req db)) = delete_first id (posts db)) \/
   (exists p, posts (snd (router req db)) = posts db ++ [p])).
Proof.
  destruct req as [ | newId now cap img caller | caller | uid | postId caller
                  | | postId | postId caller | postId cap img caller
                  | postId text caller | ]; simpl;
    try (split; [reflexivity | left; reflexivity]).
  - (* create *)
    destruct (validationResult [caption_chain cap; image_chain img])
      as [|e rest] eqn:Ev.
    + pose proof Ev as Hv. apply valid_body_iff in Hv.
      destruct Hv as [c [i [-> [-> Hlen]]]].
      rewrite (create_post_accepted newId now c i caller db Hlen). simpl.
      split; [reflexivity|]. right. right. right. now eexists.
    + rewrite (create_post_rejected newId now cap img caller db e rest Ev).
      split; [reflexivity | left; reflexivity].
  - (* like *)
    destruct (findById_posts postId (posts db)) as [P|] eqn:HP.
    + rewrite (like_post_found db postId caller P HP). simpl.
      split; [reflexivity|]. right. left. eexists. eexists.
      split; [|reflexivity].
      intros q. destruct (includes (likes P) caller);
        (repeat split; exists []; simpl; now rewrite app_nil_r).
    + rewrite (like_post_not_found db postId caller HP).
      split; [reflexivity | left; reflexivity].
  - (* delete *)
    destruct (findById_posts postId (posts db)) as [P|] eqn:HP.
    + rewrite (delete_post_found postId caller db P HP).
      destruct (id_eqb (userId P) caller); simpl;
        (split; [reflexivity|]); [|left; reflexivity].
      right. right. left. now eexists.
    + rewrite (delete_post_not_found postId caller db HP).
      split; [reflexivity | left; reflexivity].
  - (* update *)
    destruct (validationResult [caption_chain cap; image_chain img])
      as [|e rest] eqn:Ev.
    + destruct (findById_posts postId (posts db)) as [P|] eqn:HP.
      * rewrite (update_post_valid postId cap img caller db P Ev HP).
        destruct (id_eqb (userId P) caller); simpl;
          (split; [reflexivity|]); [|left; reflexivity].
        right. left. eexists. eexists. split; [|reflexivity].
        intros q. repeat split. exists []. simpl. now rewrite app_nil_r.
      * rewrite (update_post_not_found postId cap img caller db Ev HP).
        split; [reflexivity | left; reflexivity].
    + rewrite (update_post_rejected postId cap img caller db e rest Ev).
      split; [reflexivity | left; reflexivity].
  - (* comment *)
    destruct text as [t|]; [|split; [reflexivity | left; reflexivity]].
    destruct (findById_posts postId (posts db)) as [P|] eqn:HP.
    + rewrite (comment_on_post_found postId caller t db P HP). simpl.
      split; [reflexivity|]. right. left. eexists. eexists.
      split; [|reflexivity].
      intros q. repeat split. now eexists.
    + rewrite (comment_on_post_not_found postId caller t db HP).
      split; [reflexivity | left; reflexivity].
Qed.

(** Whatever the request, a post that is stored before and after it has
    kept its owner and its creation time, and its comments have only
    grown. *)
Lemma router_post_evolves (req : Request) (db : DB) (id : Id) (p p' : Post) :
  unique_ids db ->
  findById_posts id (posts db) = Some p ->
  findById_posts id (posts (snd (router req db))) = Some p' ->
  evolves p p'.
Proof.
  intros Hu Hp Hp'.
  destruct (router_writes req db) as [_ [E | [[id' [f [Hf E]]] | [[id' E] | [q E]]]]];
    rewrite E in Hp'.
  - rewrite Hp in Hp'. injection Hp' as <-. apply evolves_refl.
  - eapply findById_update_first_evolves; eassumption.
  - destruct (string_dec id id') as [-> | Hne].
    + rewrite (findById_delete_first_same id' (posts db) Hu) in Hp'.
      discriminate.
    + rewrite (findById_delete_first_other id' id (posts db) Hne) in Hp'.
      rewrite Hp in Hp'. injection Hp' as <-. apply evolves_refl.
  - rewrite (findById_posts_app id (posts db) [q] p Hp) in Hp'.
    injection Hp' as <-. apply evolves_refl.
Qed.

(** ** The answers of the router *)



(** The three shapes of an outcome: an error that wrote nothing, a read,
    or a write answered with the feed of the store it left. *)
Lemma router_outcome (req : Request) (db : DB) :
  (exists code msg, code <> 200 /\
     router req db = (mkResponse code (JsonError msg), db)) \/
  (read_only req = true /\ status (fst (router req db)) = 200 /\
   snd (router req db) = db) \/
  (exists posts',
     router req db =
       (mkResponse 200 (JsonPosts (sort_createdAt_desc posts')),
        mkDB posts' (users db))).
Proof.
  destruct req as [ | newId now cap img caller | caller | uid | postId caller
                  | | postId | postId caller | postId cap img caller
                  | postId text caller | ]; simpl;
    try (right; left; repeat split; reflexivity).
  - destruct (validationResult [caption_chain cap; image_chain img])
      as [|e rest] eqn:Ev.
    + pose proof Ev as Hv. apply valid_body_iff in Hv.
      destruct Hv as [c [i [-> [-> Hlen]]]].
      rewrite (create_post_accepted newId now c i caller db Hlen).
      right. right. now eexists.
    + rewrite (create_post_rejected newId now cap img caller db e rest Ev).
      left. exists 400, e. split; [discriminate | reflexivity].
  - destruct (findById_posts postId (posts db)) as [P|] eqn:HP.
    + rewrite (like_post_found db postId caller P HP).
      right. right. now eexists.
    + rewrite (like_post_not_found db postId caller HP).
      left. eexists. eexists. split; [|reflexivity]. discriminate.
  - destruct (findById_posts postId (posts db)) as [P|] eqn:HP.
    + rewrite (delete_post_found postId caller db P HP).
      destruct (id_eqb (userId P) caller).
      * right. right. now eexists.
      * left. eexists. eexists. split; [|reflexivity]. discriminate.
    + rewrite (delete_post_not_found postId caller db HP).
      left. eexists. eexists. split; [|reflexivity]. discriminate.
  - destruct (validationResult [caption_chain cap; image_chain img])
      as [|e rest] eqn:Ev.
    + destruct (findById_posts postId (posts db)) as [P|] eqn:HP.
      * rewrite (update_post_valid postId cap img caller db P Ev HP).
        destruct (id_eqb (userId P) caller).
        -- right. right. now eexists.
        -- left. eexists. eexists. split; [|reflexivity]. discriminate.
      * rewrite (update_post_not_found postId cap img caller db Ev HP).
        left. eexists. eexists. split; [|reflexivity]. discriminate.
    + rewrite (update_post_rejected postId cap img caller db e rest Ev).
      left. exists 400, e. split; [discriminate | reflexivity].
  - destruct text as [t|].
    + destruct (findById_posts postId (posts db)) as [P|] eqn:HP.
      * rewrite (comment_on_post_found postId caller t db P HP).
        right. right. now eexists.
      * rewrite (comment_on_post_not_found postId caller t db HP).
        left. eexists. eexists. split; [|reflexivity]. discriminate.
    + left. exists 400, "Comment is required".
      split; [discriminate | reflexivity].
Qed.

(** An answer other than 200 comes with an error body [{error: msg}] and
    with the store exactly as it was: no route writes and then fails. *)
Theorem router_error_leaves_store (req : Request) (db : DB)
    (Herr : status (fst (router req db)) <> 200) :
  snd (router req db) = db /\
  exists msg, payload (fst (router req db)) = JsonError msg.
Proof.
  destruct (router_outcome req db) as [[code [msg [_ E]]] | [[_ [H _]] | [l E]]].
  - rewrite E. simpl. split; [reflexivity | now exists msg].
  - contradiction.
  - rewrite E in Herr. simpl in Herr. contradiction.
Qed.

(** A run of [router_error_leaves_store]: "u2" tries to delete the sample
    post of "u1". *)
Lemma router_error_leaves_store_witness :
  status (fst (router (DeletePost "p1" "u2") sample_db)) <> 200 /\
  snd (router (DeletePost "p1" "u2") sample_db) = sample_db /\
  exists msg,
    payload (fst (router (DeletePost "p1" "u2") sample_db)) = JsonError msg.
Proof.
  split; [discriminate|].
  apply (router_error_leaves_store (DeletePost "p1" "u2") sample_db).
  discriminate.
Defined.

(** The routes that answer with the feed (list all, create, like, delete,
    update, comment), when they answer 200, answer with all the posts of
    the store as they leave it, newest first. *)
Theorem router_answers_feed (req : Request) (db : DB)
    (Hfeed : answers_feed req = true)
    (Hok : status (fst (router req db)) = 200) :
  exists l : list Post,
    payload (fst (router req db)) = JsonPosts l /\
    Permutation l (posts (snd (router req db))) /\
    newest_first l.
Proof.
  destruct (router_outcome req db) as [[code [msg [Hc E]]] | [[Hr _] | [l E]]].
  - rewrite E in Hok. simpl in Hok. contradiction.
  - destruct req; try discriminate Hfeed; try discriminate Hr.
    exists (sort_createdAt_desc (posts db)). simpl.
    split; [reflexivity|].
    split; [apply sort_createdAt_desc_perm | apply sort_createdAt_desc_newest_first].
  - rewrite E. simpl. exists (sort_createdAt_desc l).
    split; [reflexivity|].
    split; [apply sort_createdAt_desc_perm | apply sort_createdAt_desc_newest_first].
Qed.

(** A run of [router_answers_feed]: "u2" comments on the sample post "p1". *)
Lemma router_answers_feed_witness :
  answers_feed (CommentOnPost "p1" (Some "nice") "u2") = true /\
  status (fst (router (CommentOnPost "p1" (Some "nice") "u2") sample_db)) = 200 /\
  exists l : list Post,
    payload (fst (router (CommentOnPost "p1" (Some "nice") "u2") sample_db))
      = JsonPosts l /\
    Permutation l
      (posts (snd (router (CommentOnPost "p1" (Some "nice") "u2") sample_db))) /\
    newest_first l.
Proof.
  split; [reflexivity|]. split; [reflexivity|].
  apply (router_answers_feed (CommentOnPost "p1" (Some "nice") "u2") sample_db);
    reflexivity.
Defined.

(** ** Likes stay without repetition *)

Lemma In_update_first_found (id : Id) (f : Post -> Post) (l : list Post)
    (P p : Post) :
  findById_posts id l = Some P ->
  In p (update_first id f l) -> In p l \/ p = f P.
Proof.
  induction l as [|q l IH]; simpl; [discriminate|].
  destruct (id_eqb (_id q) id); simpl.
  - intros [= <-] [H | H]; auto.
  - intros HP [H | H]; auto. destruct (IH HP H); auto.
Qed.

(** Whatever the request, if no stored post lists a user twice among its
    likes before it, none does after it. *)
Theorem router_keeps_likes_unique (req : Request) (db : DB)
    (Hinv : likes_unique db) :
  likes_unique (snd (router req db)).
Proof.
  destruct req as [ | newId now cap img caller | caller | uid | postId caller
                  | | postId | postId caller | postId cap img caller
                  | postId text caller | ]; simpl; try exact Hinv.
  - destruct (validationResult [caption_chain cap; image_chain img])
      as [|e rest] eqn:Ev.
    + pose proof Ev as Hv. apply valid_body_iff in Hv.
      destruct Hv as [c [i [-> [-> Hlen]]]].
      rewrite (create_post_accepted newId now c i caller db Hlen). simpl.
      intros p Hin. simpl in Hin. apply in_app_or in Hin.
      destruct Hin as [Hin | [<- | []]]; [now apply Hinv | constructor].
    + now rewrite (create_post_rejected newId now cap img caller db e rest Ev).
  - destruct (findById_posts postId (posts db)) as [P|] eqn:HP.
    + rewrite (like_post_found db postId caller P HP). simpl.
      intros p Hin. simpl in Hin.
      apply (In_update_first_found _ _ _ P) in Hin; [|exact HP].
      destruct Hin as [Hin | ->]; [now apply Hinv|].
      pose proof (Hinv P (findById_posts_In _ _ _ HP)) as HndP.
      destruct (includes (likes P) caller) eqn:E; simpl.
      * now apply NoDup_filter.
      * apply NoDup_snoc; [exact HndP | now apply includes_not_In].
    + now rewrite (like_post_not_found db postId caller HP).
  - destruct (findById_posts postId (posts db)) as [P|] eqn:HP.
    + rewrite (delete_post_found postId caller db P HP).
      destruct (id_eqb (userId P) caller); simpl; [|exact Hinv].
      intros p Hin. simpl in Hin. apply In_delete_first in Hin. now apply Hinv.
    + now rewrite (delete_post_not_found postId caller db HP).
  - destruct (validationResult [caption_chain cap; image_chain img])
      as [|e rest] eqn:Ev.
    + destruct (findById_posts postId (posts db)) as [P|] eqn:HP.
      * rewrite (update_post_valid postId cap img caller db P Ev HP).
        destruct (id_eqb (userId P) caller); simpl; [|exact Hinv].
        intros p Hin. simpl in Hin.
        apply (In_update_first_found _ _ _ P) in Hin; [|exact HP].
        destruct Hin as [Hin | ->]; [now apply Hinv|].
        simpl. apply (Hinv P (findById_posts_In _ _ _ HP)).
      * now rewrite (update_post_not_found postId cap img caller db Ev HP).
    + now rewrite (update_post_rejected postId cap img caller db e rest Ev).
  - destruct text as [t|]; [|exact Hinv].
    destruct (findById_posts postId (posts db)) as [P|] eqn:HP.
    + rewrite (comment_on_post_found postId caller t db P HP). simpl.
      intros p Hin. simpl in Hin.
      apply (In_update_first_found _ _ _ P) in Hin; [|exact HP].
      destruct Hin as [Hin | ->]; [now apply Hinv|].
      simpl. apply (Hinv P (findById_posts_In _ _ _ HP)).
    + now rewrite (comment_on_post_not_found postId caller t db HP).
Qed.

Lemma likes_unique_sample_db : likes_unique sample_db.
Proof.
  intros p [<- | [<- | []]]; simpl;
    repeat constructor; simpl; intuition discriminate.
Qed.

(** A run of [router_keeps_likes_unique]: "u2", who likes the sample post
    "p1", toggles; "u3", who does not, toggles. *)
Lemma router_keeps_likes_unique_witness :
  likes_unique sample_db /\
  likes_unique (snd (router (LikePost "p1" "u2") sample_db)) /\
  likes_unique (snd (router (LikePost "p1" "u3") sample_db)).
Proof.
  split; [exact likes_unique_sample_db|]. split.
  - apply (router_keeps_likes_unique (LikePost "p1" "u2") sample_db).
    exact likes_unique_sample_db.
  - apply (router_keeps_likes_unique (LikePost "p1" "u3") sample_db).
    exact likes_unique_sample_db.
Defined.

(** ** Creating, looking up, deleting *)

Lemma findById_posts_app_fresh (id : Id) (l : list Post) (p : Post) :
  ~ In id (map _id l) -> _id p = id ->
  findById_posts id (l ++ [p]) = Some p.
Proof.
  intros Hfresh Hid. induction l as [|q l IH]; simpl.
  - rewrite Hid, id_eqb_refl. reflexivity.
  - simpl in Hfresh.
    assert (Hq : id_eqb (_id q) id = false) by (apply id_eqb_neq; tauto).
    rewrite Hq. apply IH. tauto.
Qed.

Lemma delete_first_app_fresh (id : Id) (l : list Post) (p : Post) :
  ~ In id (map _id l) -> _id p = id ->
  delete_first id (l ++ [p]) = l.
Proof.
  intros Hfresh Hid. induction l as [|q l IH]; simpl.
  - rewrite Hid, id_eqb_refl. reflexivity.
  - simpl in Hfresh.
    assert (Hq : id_eqb (_id q) id = false) by (apply id_eqb_neq; tauto).
    rewrite Hq. f_equal. apply IH. tauto.
Qed.


(** Create, then look up.  After a create with a new identifier and a body
    that passes validation, the lookup of that identifier answers 200 with
    the post as created: the caption and the image of the body, the caller
    as owner, no likes, no comments, the creation time. *)
Theorem create_then_get (db : DB) (newId : Id) (now : Z) (c i : string)
    (caller : Id)
    (Hfresh : ~ In newId (map _id (posts db)))
    (Hlen : 5 <= String.length c <= 100) :
  let db1 := snd (create_post newId now (Some c) (Some i) caller db) in
  get_post_by_id newId db1 =
    (mkResponse 200 (JsonPost (Some (mkPost newId c i caller [] [] now))), db1).
Proof.
  rewrite (create_post_accepted newId now c i caller db Hlen). simpl.
  unfold get_post_by_id. run_route.
  now rewrite (findById_posts_app_fresh newId (posts db)
                 (mkPost newId c i caller [] [] now) Hfresh eq_refl).
Qed.

(** A run of [create_then_get]: "u2" creates "p3" in the sample store. *)
Lemma create_then_get_witness :
  (~ In "p3" (map _id (posts sample_db)) /\
   5 <= String.length "third post" <= 100) /\
  payload (fst (get_post_by_id "p3"
     (snd (create_post "p3" 3000 (Some "third post") (Some "c.png") "u2" sample_db))))
  = JsonPost (Some (mkPost "p3" "third post" "c.png" "u2" [] [] 3000)).
Proof.
  assert (Hfresh : ~ In "p3" (map _id (posts sample_db)))
    by (simpl; intuition discriminate).
  assert (Hlen : 5 <= String.length "third post" <= 100) by (simpl; lia).
  split; [split; assumption|].
  now rewrite (create_then_get sample_db "p3" 3000 "third post" "c.png" "u2"
                 Hfresh Hlen).
Defined.

(** Create, then delete.  After a create with a new identifier and a valid
    body, a delete of that post by its creator answers 200 with the feed of
    the store as it was before the create, and leaves exactly that store. *)
Theorem create_then_delete (db : DB) (newId : Id) (now : Z) (c i : string)
    (caller : Id)
    (Hfresh : ~ In newId (map _id (posts db)))
    (Hlen : 5 <= String.length c <= 100) :
  delete_post newId caller
    (snd (create_post newId now (Some c) (Some i) caller db))
  = (mkResponse 200 (JsonPosts (sort_createdAt_desc (posts db))), db).
Proof.
  rewrite (create_post_accepted newId now c i caller db Hlen). simpl.
  rewrite (delete_post_found newId caller _ (mkPost newId c i caller [] [] now)).
  - simpl. rewrite id_eqb_refl. simpl.
    rewrite (delete_first_app_fresh newId (posts db)
               (mkPost newId c i caller [] [] now) Hfresh eq_refl).
    now destruct db.
  - simpl. now apply findById_posts_app_fresh.
Qed.

(** A run of [create_then_delete] in the sample store. *)
Lemma create_then_delete_witness :
  (~ In "p3" (map _id (posts sample_db)) /\
   5 <= String.length "third post" <= 100) /\
  snd (delete_post "p3" "u2"
         (snd (create_post "p3" 3000 (Some "third post") (Some "c.png") "u2" sample_db)))
  = sample_db.
Proof.
  assert (Hfresh : ~ In "p3" (map _id (posts sample_db)))
    by (simpl; intuition discriminate).
  assert (Hlen : 5 <= String.length "third post" <= 100) by (simpl; lia).
  split; [split; assumption|].
  now rewrite (create_then_delete sample_db "p3" 3000 "third post" "c.png" "u2"
                 Hfresh Hlen).
Defined.

(** The answer of the create route, by the body.  Without a caption: 400,
    "Caption in required".  With a caption outside 5..100 characters: 400
    with the length message.  With a good caption and no image: 400, "Image
    is required".  Otherwise 200 with the feed of the store with the new
    post.  The update route answers an invalid body as the create route
    does. *)
Theorem create_post_answer (db : DB) (newId : Id) (now : Z)
    (cap img : option string) (caller : Id) (postId : Id) :
  fst (create_post newId now cap img caller db) =
    match cap with
    | None => mkResponse 400 (JsonError "Caption in required")
    | Some c =>
        if isLength 5 100 c then
          match img with
          | None => mkResponse 400 (JsonError "Image is required")
          | Some i =>
              mkResponse 200
                (JsonPosts (sort_createdAt_desc
                              (posts db ++ [mkPost newId c i caller [] [] now])))
          end
        else
          mkResponse 400
            (JsonError "Caption must be between 5 and 100 characters")
    end /\
  (~ valid_body cap img ->
   update_post postId cap img caller db = create_post newId now cap img caller db).
Proof.
  split.
  - destruct cap as [c|]; [|reflexivity].
    destruct (isLength 5 100 c) eqn:E.
    + destruct img as [i|].
      * apply isLength_iff in E.
        now rewrite (create_post_accepted newId now c i caller db E).
      * erewrite create_post_rejected; [reflexivity|].
        unfold validationResult. simpl. rewrite caption_chain_present, E.
        reflexivity.
    + erewrite create_post_rejected; [reflexivity|].
      unfold validationResult. simpl. rewrite caption_chain_present, E.
      reflexivity.
  - intros Hn. destruct (invalid_body_errors cap img Hn) as [e [rest He]].
    rewrite (update_post_rejected postId cap img caller db e rest He).
    now rewrite (create_post_rejected newId now cap img caller db e rest He).
Qed.

(** A request that names a post that is not stored: delete, and comment
    with a text, answer 500; update answers 500 with a valid body and 400
    with an invalid one, validation coming before the lookup; in every
    case the store is left as it was. *)
Theorem missing_post_answers (db : DB) (postId caller : Id)
    (cap img : option string) (t : string)
    (Hmiss : findById_posts postId (posts db) = None) :
  (status (fst (delete_post postId caller db)) = 500 /\
   snd (delete_post postId caller db) = db) /\
  (status (fst (comment_on_post postId (Some t) caller db)) = 500 /\
   snd (comment_on_post postId (Some t) caller db) = db) /\
  (valid_body cap img ->
   status (fst (update_post postId cap img caller db)) = 500 /\
   snd (update_post postId cap img caller db) = db) /\
  (~ valid_body cap img ->
   status (fst (update_post postId cap img caller db)) = 400 /\
   snd (update_post postId cap img caller db) = db).
Proof.
  split; [|split; [|split]].
  - now rewrite (delete_post_not_found postId caller db Hmiss).
  - now rewrite (comment_on_post_not_found postId caller t db Hmiss).
  - intros Hv. now rewrite (update_post_not_found postId cap img caller db Hv Hmiss).
  - intros Hn. destruct (invalid_body_errors cap img Hn) as [e [rest He]].
    now rewrite (update_post_rejected postId cap img caller db e rest He).
Qed.

(** A run of [missing_post_answers]: no sample post is called "p9". *)
Lemma missing_post_answers_witness :
  findById_posts "p9" (posts sample_db) = None /\
  status (fst (delete_post "p9" "u1" sample_db)) = 500 /\
  status (fst (comment_on_post "p9" (Some "nice") "u1" sample_db)) = 500.
Proof.
  split; [reflexivity|].
  destruct (missing_post_answers sample_db "p9" "u1" None None "nice" eq_refl)
    as [[Hd _] [[Hc _] _]].
  split; assumption.
Defined.

(** ** Repeating and combining writes *)

Lemma update_first_idem (id : Id) (f : Post -> Post) (l : list Post) :
  (forall p, _id (f p) = _id p) ->
  (forall p, f (f p) = f p) ->
  update_first id f (update_first id f l) = update_first id f l.
Proof.
  intros Hid Hidem. induction l as [|q l IH]; simpl; [reflexivity|].
  destruct (id_eqb (_id q) id) eqn:E; simpl.
  - now rewrite Hid, E, Hidem.
  - now rewrite E, IH.
Qed.

(** The same update, sent twice by the owner with a valid body, gives the
    second time the answer and the store of the first time. *)
Theorem update_post_twice (db : DB) (postId : Id) (cap img : option string)
    (P : Post)
    (HP : findById_posts postId (posts db) = Some P)
    (Hv : valid_body cap img) :
  update_post postId cap img (userId P)
    (snd (update_post postId cap img (userId P) db))
  = update_post postId cap img (userId P) db.
Proof.
  rewrite (update_post_valid postId cap img (userId P) db P Hv HP).
  rewrite id_eqb_refl. simpl.
  assert (HP1 : findById_posts postId
                  (posts (mkDB (update_first postId (set_caption_image cap img) (posts db))
                               (users db)))
                = Some (set_caption_image cap img P)).
  { simpl. apply findById_update_first_same; [|exact HP]. intros p. reflexivity. }
  rewrite (update_post_valid postId cap img (userId P) _ _ Hv HP1).
  simpl. rewrite id_eqb_refl.
  rewrite update_first_idem; [reflexivity | intros p; reflexivity |].
  intros p. destruct cap, img; reflexivity.
Qed.

(** A run of [update_post_twice]: "u1" edits the sample post "p1" twice. *)
Lemma update_post_twice_witness :
  (findById_posts "p1" (posts sample_db) = Some first_post /\
   valid_body (Some "edited") (Some "c.png")) /\
  update_post "p1" (Some "edited") (Some "c.png") "u1"
    (snd (update_post "p1" (Some "edited") (Some "c.png") "u1" sample_db))
  = update_post "p1" (Some "edited") (Some "c.png") "u1" sample_db.
Proof.
  split; [split; reflexivity|].
  apply (update_post_twice sample_db "p1" (Some "edited") (Some "c.png") first_post);
    reflexivity.
Defined.

(** Two comments on a stored post, by any two callers, are kept in the
    order they were sent, after the comments the post had. *)
Theorem comment_twice_in_order (db : DB) (postId U1 U2 : Id) (t1 t2 : string)
    (P : Post)
    (HP : findById_posts postId (posts db) = Some P) :
  let db1 := snd (comment_on_post postId (Some t1) U1 db) in
  let db2 := snd (comment_on_post postId (Some t2) U2 db1) in
  exists (P2 : Post) (c1 c2 : Comment),
    findById_posts postId (posts db2) = Some P2 /\
    comments P2 = comments P ++ [c1; c2] /\
    comment c1 = Some t1 /\ comment c2 = Some t2.
Proof.
  intros db1 db2.
  set (c1 := mkComment
               (omit (option_map toJSON (findById_users U1 (users db))) "password")
               (Some t1)).
  assert (HP1 : findById_posts postId (posts db1) = Some (push_comments c1 P)).
  { unfold db1. rewrite (comment_on_post_found postId U1 t1 db P HP). simpl.
    apply findById_update_first_same; [|exact HP]. intros p. reflexivity. }
  set (c2 := mkComment
               (omit (option_map toJSON (findById_users U2 (users db1))) "password")
               (Some t2)).
  exists (push_comments c2 (push_comments c1 P)), c1, c2.
  split.
  - unfold db2. rewrite (comment_on_post_found postId U2 t2 db1 _ HP1). simpl.
    apply findById_update_first_same; [|exact HP1]. intros p. reflexivity.
  - simpl. rewrite <- app_assoc. repeat split.
Qed.

(** A run of [comment_twice_in_order] on the sample post "p1". *)
Lemma comment_twice_in_order_witness :
  findById_posts "p1" (posts sample_db) = Some first_post /\
  exists (P2 : Post) (c1 c2 : Comment),
    findById_posts "p1"
      (posts (snd (comment_on_post "p1" (Some "second") "u1"
                     (snd (comment_on_post "p1" (Some "first") "u2" sample_db)))))
      = Some P2 /\
    comments P2 = comments first_post ++ [c1; c2] /\
    comment c1 = Some "first" /\ comment c2 = Some "second".
Proof.
  split; [reflexivity|].
  apply (comment_twice_in_order sample_db "p1" "u2" "u1" "first" "second" first_post).
  reflexivity.
Defined.

(** A comment by a caller who has no user document.  The lookup of the
    user gives [null], the snapshot is the empty object, and the comment
    is appended all the same with a 200 answer. *)
Theorem comment_by_unknown_user (db : DB) (postId U : Id) (t : string) (P : Post)
    (HP : findById_posts postId (posts db) = Some P)
    (HU : findById_users U (users db) = None) :
  let out := comment_on_post postId (Some t) U db in
  status (fst out) = 200 /\
  findById_posts postId (posts (snd out))
    = Some (push_comments (mkComment [] (Some t)) P).
Proof.
  intros out. unfold out.
  rewrite (comment_on_post_found postId U t db P HP), HU. simpl.
  split; [reflexivity|].
  apply findById_update_first_same; [|exact HP]. intros p. reflexivity.
Qed.

(** A run of [comment_by_unknown_user]: the sample store has no user "u3". *)
Lemma comment_by_unknown_user_witness :
  (findById_posts "p1" (posts sample_db) = Some first_post /\
   findById_users "u3" (users sample_db) = None) /\
  status (fst (comment_on_post "p1" (Some "hi") "u3" sample_db)) = 200 /\
  findById_posts "p1" (posts (snd (comment_on_post "p1" (Some "hi") "u3" sample_db)))
    = Some (push_comments (mkComment [] (Some "hi")) first_post).
Proof.
  split; [split; reflexivity|].
  apply (comment_by_unknown_user sample_db "p1" "u3" "hi" first_post); reflexivity.
Defined.

Lemma count_occ_pull_other (U x : Id) (l : list Id) :
  x <> U ->
  count_occ string_dec (filter (fun y => negb (id_eqb y U)) l) x
  = count_occ string_dec l x.
Proof.
  intros Hne. induction l as [|y l IH]; simpl; [reflexivity|].
  destruct (id_eqb y U) eqn:E; simpl.
  - apply id_eqb_eq in E. subst y.
    destruct (string_dec U x); [congruence | exact IH].
  - destruct (string_dec y x); now rewrite IH.
Qed.

Lemma count_occ_push_other (U x : Id) (l : list Id) :
  x <> U ->
  count_occ string_dec (l ++ [U]) x = count_occ string_dec l x.
Proof.
  unfold Id in *. intros Hne. rewrite count_occ_app. simpl.
  destruct (string_dec U x); [congruence | lia].
Qed.

(** A like toggle by [U] touches nothing but U's own membership: every
    other user occurs in the likes as often as before, the other fields of
    the post are the same, and every other post is as before. *)
Theorem like_post_frame (db : DB) (postId U : Id) (P : Post)
    (HP : findById_posts postId (posts db) = Some P) :
  let db1 := snd (like_post postId U db) in
  exists P1 : Post,
    findById_posts postId (posts db1) = Some P1 /\
    (forall x, x <> U ->
       count_occ string_dec (likes P1) x = count_occ string_dec (likes P) x) /\
    (_id P1 = _id P /\ caption P1 = caption P /\ image P1 = image P /\
     userId P1 = userId P /\ comments P1 = comments P /\
     createdAt P1 = createdAt P) /\
    (forall other, other <> postId ->
       findById_posts other (posts db1) = findById_posts other (posts db)) /\
    users db1 = users db.
Proof.
  intros db1. unfold db1. rewrite (like_post_found db postId U P HP). simpl.
  set (t := if includes (likes P) U then pull_likes U else push_likes U).
  exists (t P). split.
  { apply findById_update_first_same; [|exact HP]. intros p. apply toggle_id. }
  split.
  { intros x Hx. unfold t. destruct (includes (likes P) U); simpl.
    - now apply count_occ_pull_other.
    - now apply count_occ_push_other. }
  split.
  { unfold t. destruct (includes (likes P) U); repeat split. }
  split; [|reflexivity].
  intros other Hother. apply findById_update_first_other; [|exact Hother].
  intros p. apply toggle_id.
Qed.

(** A run of [like_post_frame]: "u2" withdraws the like on the sample post. *)
Lemma like_post_frame_witness :
  findById_posts "p1" (posts sample_db) = Some first_post /\
  exists P1 : Post,
    findById_posts "p1" (posts (snd (like_post "p1" "u2" sample_db))) = Some P1 /\
    (forall x, x <> "u2" ->
       count_occ string_dec (likes P1) x = count_occ string_dec (likes first_post) x).
Proof.
  split; [reflexivity|].
  destruct (like_post_frame sample_db "p1" "u2" first_post eq_refl)
    as [P1 [H1 [H2 _]]].
  exists P1. split; assumption.
Defined.

(** ** The listing of the caller's own posts *)

(** [GET /userposts] answers 200 with the stored posts owned by the caller,
    in the order of the store.  After a create that passes validation, the
    creator's listing is the listing before followed by the new post, and
    the listing of anyone else is the same as before. *)
Theorem get_user_posts_after_create (db : DB) (newId : Id) (now : Z)
    (c i : string) (caller other : Id)
    (Hlen : 5 <= String.length c <= 100)
    (Hother : other <> caller) :
  let db1 := snd (create_post newId now (Some c) (Some i) caller db) in
  (forall p, In p (posts_of (fst (get_user_posts caller db)))
             <-> In p (posts db) /\ userId p = caller) /\
  posts_of (fst (get_user_posts caller db1))
    = posts_of (fst (get_user_posts caller db))
      ++ [mkPost newId c i caller [] [] now] /\
  posts_of (fst (get_user_posts other db1))
    = posts_of (fst (get_user_posts other db)).
Proof.
  rewrite (create_post_accepted newId now c i caller db Hlen). simpl.
  unfold get_user_posts, posts_of. run_route.
  split; [|split].
  - intros p. rewrite filter_In, id_eqb_eq. tauto.
  - rewrite filter_app. simpl. now rewrite id_eqb_refl.
  - rewrite filter_app. simpl.
    assert (E : id_eqb caller other = false) by (apply id_eqb_neq; congruence).
    rewrite E. apply app_nil_r.
Qed.

(** A run of [get_user_posts_after_create]: "u2" creates a first post. *)
Lemma get_user_posts_after_create_witness :
  (5 <= String.length "third post" <= 100 /\ "u1" <> "u2") /\
  posts_of (fst (get_user_posts "u2"
     (snd (create_post "p3" 3000 (Some "third post") (Some "c.png") "u2" sample_db))))
  = [mkPost "p3" "third post" "c.png" "u2" [] [] 3000].
Proof.
  assert (Hlen : 5 <= String.length "third post" <= 100) by (simpl; lia).
  assert (Hne : "u1" <> "u2") by discriminate.
  split; [split; assumption|].
  destruct (get_user_posts_after_create sample_db "p3" 3000 "third post" "c.png"
              "u2" "u1" Hlen Hne) as [_ [H _]].
  rewrite H. reflexivity.
Defined.

(** ** Runs of the store invariants *)

Lemma unique_ids_sample_db : unique_ids sample_db.
Proof.
  unfold unique_ids. simpl. repeat constructor; simpl; intuition discriminate.
Qed.

(** A run of [routes_keep_unique_ids]: a create with the new identifier
    "p3" and a delete by the owner, in the sample store. *)
Lemma routes_keep_unique_ids_witness :
  unique_ids sample_db /\
  unique_ids (snd (create_post "p3" 3000 (Some "third post") (Some "c.png") "u2" sample_db)) /\
  unique_ids (snd (delete_post "p1" "u1" sample_db)).
Proof.
  split; [exact unique_ids_sample_db|].
  destruct (routes_keep_unique_ids sample_db unique_ids_sample_db)
    as [_ [Hdel [_ [_ Hcreate]]]].
  split; [|apply Hdel].
  apply Hcreate. simpl. intuition discriminate.
Defined.

(** A run of [router_post_evolves]: a comment of "u2" on the sample post. *)
Lemma router_post_evolves_witness :
  (unique_ids sample_db /\
   findById_posts "p1" (posts sample_db) = Some first_post /\
   findById_posts "p1"
     (posts (snd (router (CommentOnPost "p1" (Some "nice") "u2") sample_db)))
   = Some (push_comments
             (mkComment [("_id", "u2"); ("username", "bob")] (Some "nice"))
             first_post)) /\
  evolves first_post
    (push_comments
       (mkComment [("_id", "u2"); ("username", "bob")] (Some "nice"))
       first_post).
Proof.
  split; [split; [exact unique_ids_sample_db | split; reflexivity]|].
  apply (router_post_evolves (CommentOnPost "p1" (Some "nice") "u2") sample_db "p1");
    [exact unique_ids_sample_db | reflexivity | reflexivity].
Defined.

(** ** The names of uploaded files *)

Lemma number_toString_inj (a b : N) :
  number_toString a = number_toString b -> a = b.
Proof.
  unfold number_toString. intros E.
  apply DecimalN.Unsigned.to_uint_inj.
  assert (H : Some (N.to_uint a) = Some (N.to_uint b)).
  { rewrite <- (DecimalString.NilEmpty.usu (N.to_uint a)),
            <- (DecimalString.NilEmpty.usu (N.to_uint b)).
    now rewrite E. }
  now injection H.
Qed.

Lemma append_inj_same_length (a b x y : string) :
  String.length a = String.length b ->
  (a ++ x)%string = (b ++ y)%string -> a = b /\ x = y.
Proof.
  revert b. induction a as [|c a IH]; intros [|d b]; simpl; try discriminate.
  - intros _ E. now split.
  - intros [= Hlen] [= -> E]. destruct (IH b Hlen E) as [-> ->]. now split.
Qed.

(** The stored name of an upload is the time of the upload, in digits,
    followed by the original name.  Between two uploads whose times have
    the same number of digits the name tells them apart: equal names mean
    the same time and the same original name. *)
Theorem filename_injective (t1 t2 : N) (name1 name2 : string)
    (Hdigits : String.length (number_toString t1)
               = String.length (number_toString t2))
    (Hsame : filename t1 name1 = filename t2 name2) :
  t1 = t2 /\ name1 = name2.
Proof.
  unfold filename in Hsame.
  destruct (append_inj_same_length _ _ _ _ Hdigits Hsame) as [Ht Hn].
  split; [now apply number_toString_inj | exact Hn].
Qed.

(** A run of [filename_injective] at a time of thirteen digits. *)
Lemma filename_injective_witness :
  filename 1700000000000 "cat.png" = "1700000000000cat.png" /\
  String.length (number_toString 1700000000000)
    = String.length (number_toString 1700000000000) /\
  (1700000000000 = 1700000000000 /\ "cat.png" = "cat.png")%N.
Proof.
  split; [reflexivity|]. split; [reflexivity|].
  apply (filename_injective 1700000000000 1700000000000 "cat.png" "cat.png");
    reflexivity.
Defined.

(** Without the condition on the digits the name does not tell uploads
    apart: digits at the start of the original name read as time. *)
Lemma filename_collision : filename 1 "23.png" = filename 12 "3.png".
Proof. reflexivity. Qed.

(** ** The client: loading the feed *)

(** [getPosts] on the answer of [GET /]: whatever the store, the action
    dispatched is [GET_POSTS] with all the stored posts, newest first, and
    nothing is toasted.  On an error body the message is toasted, unless it
    is the empty string: then the error body is dispatched as the feed. *)
Theorem getPosts_of_get_all_posts (db : DB) :
  (exists l : list Post,
     getPosts (payload (fst (get_all_posts db)))
       = Ok (Dispatch "GET_POSTS" (JsonPosts l)) /\
     Permutation l (posts db) /\ newest_first l) /\
  (forall msg : string,
     getPosts (JsonError msg) =
       if String.eqb msg "" then Ok (Dispatch "GET_POSTS" (JsonError msg))
       else Ok (Toast msg)).
Proof.
  split.
  - exists (sort_createdAt_desc (posts db)). rewrite get_all_posts_eq. simpl.
    split; [reflexivity|].
    split; [apply sort_createdAt_desc_perm | apply sort_createdAt_desc_newest_first].
  - intros msg. unfold getPosts, truthy. simpl.
    now destruct (String.eqb msg "").
Qed.

(** ** The client: the create-post dialog *)

Lemma length_string_of_list_ascii (l : list ascii) :
  String.length (string_of_list_ascii l) = List.length l.
Proof. induction l as [|c l IH]; simpl; congruence. Qed.

Lemma length_list_ascii_of_string (s : string) :
  List.length (list_ascii_of_string s) = String.length s.
Proof. induction s as [|c s IH]; simpl; congruence. Qed.


Lemma trimStart_chars_length (l : list ascii) :
  List.length (trimStart_chars l) <= List.length l.
Proof.
  induction l as [|c l IH]; simpl; [lia|].
  destruct (isWhiteSpace c); simpl; lia.
Qed.

Lemma trim_length (s : string) : String.length (trim s) <= String.length s.
Proof.
  unfold trim. rewrite length_string_of_list_ascii, length_rev.
  etransitivity; [apply trimStart_chars_length|].
  rewrite length_rev.
  etransitivity; [apply trimStart_chars_length|].
  now rewrite length_list_ascii_of_string.
Qed.





Lemma create_enabled_iff (pd : PostData) :
  create_enabled pd = true <->
  form_image pd <> "" /\
  5 < String.length (trim (form_caption pd)) < 100.
Proof.
  unfold create_enabled, truthy.
  rewrite !andb_true_iff, negb_true_iff, String.eqb_neq, !Nat.ltb_lt. tauto.
Qed.





(** The ends of the range.  The server accepts captions of 5 and of 100
    characters; the dialog, which asks for more than 5 and fewer than 100
    after trimming, leaves the Create button disabled for every caption of
    at most 5 characters, for every caption of 100 or more characters that
    has no white space at its ends, and for every draft without an image. *)
Theorem create_enabled_bounds (pd : PostData) :
  (String.length (form_caption pd) <= 5 -> create_enabled pd = false) /\
  (100 <= String.length (form_caption pd) ->
   trim (form_caption pd) = form_caption pd -> create_enabled pd = false) /\
  (form_image pd = "" -> create_enabled pd = false) /\
  (String.length (form_caption pd) = 5 \/ String.length (form_caption pd) = 100 ->
   caption_chain (Some (form_caption pd)) = []).
Proof.
  pose proof (trim_length (form_caption pd)) as Htrim.
  pose proof (create_enabled_iff pd) as Hiff.
  repeat split.
  - intros Hlen. destruct (create_enabled pd); [|reflexivity].
    destruct Hiff as [H _]. specialize (H eq_refl). lia.
  - intros Hlen Hfix. destruct (create_enabled pd); [|reflexivity].
    destruct Hiff as [H _]. specialize (H eq_refl). rewrite Hfix in H. lia.
  - intros Himg. destruct (create_enabled pd); [|reflexivity].
    destruct Hiff as [H _]. specialize (H eq_refl). tauto.
  - intros Hlen. apply caption_chain_ok. lia.
Qed.

(** ** The dialog over a sequence of events *)

Lemma run_cons (e : Event) (rest : list Event) (s : Component) :
  run (e :: rest) s =
    (fst (run rest (fst (step e s))),
     snd (step e s) ++ snd (run rest (fst (step e s)))).
Proof.
  simpl. destruct (step e s) as [s1 out1]. simpl.
  destruct (run rest s1) as [s2 out2]. reflexivity.
Qed.

Lemma create_enabled_no_image (pd : PostData) :
  form_image pd = "" -> create_enabled pd = false.
Proof. unfold create_enabled, truthy. intros ->. reflexivity. Qed.

Lemma run_without_upload (events : list Event) (s : Component) :
  forallb (fun e => negb (is_upload_done e)) events = true ->
  form_image (postData s) = "" ->
  snd (run events s) = [] /\
  form_image (postData (fst (run events s))) = "".
Proof.
  revert s. induction events as [|e rest IH]; intros s Hno Himg.
  - now split.
  - simpl in Hno. apply andb_true_iff in Hno. destruct Hno as [He Hrest].
    rewrite run_cons. simpl.
    assert (Hstep : snd (step e s) = [] /\
                    form_image (postData (fst (step e s))) = "").
    { destruct e; simpl in *; try discriminate He; try (now split).
      rewrite (create_enabled_no_image _ Himg). now split. }
    destruct Hstep as [Hout Himg1].
    destruct (IH (fst (step e s)) Hrest Himg1) as [H1 H2].
    rewrite Hout, H1. now split.
Qed.

(** Without an upload that completes, nothing is submitted.  From the
    initial state of the dialog, over any sequence of openings, closings,
    caption changes, started uploads and clicks on Create, no draft is
    handed to [createPost] and the Create button is still disabled at the
    end. *)
Theorem dialog_needs_upload (events : list Event)
    (Hno : forallb (fun e => negb (is_upload_done e)) events = true) :
  snd (run events initial) = [] /\
  create_enabled (postData (fst (run events initial))) = false.
Proof.
  destruct (run_without_upload events initial Hno eq_refl) as [H1 H2].
  split; [exact H1 | now apply create_enabled_no_image].
Qed.

(** A run of [dialog_needs_upload]: a caption is typed, an upload is
    started and Create is clicked before it completes. *)
Lemma dialog_needs_upload_witness :
  forallb (fun e => negb (is_upload_done e))
    [ClickOpen; Change "hello world"; UploadStart; ClickCreate] = true /\
  snd (run [ClickOpen; Change "hello world"; UploadStart; ClickCreate] initial) = [] /\
  create_enabled
    (postData (fst (run [ClickOpen; Change "hello world"; UploadStart; ClickCreate]
                      initial))) = false.
Proof.
  split; [reflexivity|].
  apply (dialog_needs_upload
           [ClickOpen; Change "hello world"; UploadStart; ClickCreate]).
  reflexivity.
Defined.

(** Every draft handed to [createPost], over any sequence of events from
    any state, satisfies the condition of the Create button: it has an
    image and a caption of more than 5 and fewer than 100 characters after
    trimming. *)
Theorem dispatched_drafts_pass_gate (events : list Event) (s : Component)
    (pd : PostData)
    (Hin : In pd (snd (run events s))) :
  create_enabled pd = true /\
  form_image pd <> "" /\
  5 < String.length (trim (form_caption pd)) < 100.
Proof.
  assert (H : create_enabled pd = true).
  { revert s Hin. induction events as [|e rest IH]; intros s Hin.
    - destruct Hin.
    - rewrite run_cons in Hin. simpl in Hin. apply in_app_or in Hin.
      destruct Hin as [Hin | Hin]; [|now apply (IH _ Hin)].
      destruct e; simpl in Hin; try (now destruct Hin).
      destruct (create_enabled (postData s)) eqn:E; simpl in Hin.
      + destruct Hin as [<- | []]. exact E.
      + destruct Hin. }
  split; [exact H | now apply create_enabled_iff].
Qed.

(** A run of [dispatched_drafts_pass_gate]: a caption, a completed upload,
    a click on Create. *)
Lemma dispatched_drafts_pass_gate_witness :
  In (mkPostData "hello world" "https://socialuwu.herokuapp.com/images/1cat.png")
     (snd (run [ClickOpen; Change "hello world"; UploadStart;
                UploadDone 0 (Some "1cat.png"); ClickCreate] initial)) /\
  create_enabled
    (mkPostData "hello world" "https://socialuwu.herokuapp.com/images/1cat.png")
  = true.
Proof.
  assert (Hin : In (mkPostData "hello world" "https://socialuwu.herokuapp.com/images/1cat.png")
                   (snd (run [ClickOpen; Change "hello world"; UploadStart;
                              UploadDone 0 (Some "1cat.png"); ClickCreate] initial)))
    by (left; reflexivity).
  split; [exact Hin|].
  apply (dispatched_drafts_pass_gate _ _ _ Hin).
Defined.

(** A caption typed while an upload is under way is lost when the upload
    completes.  The callback of the upload writes back the [postData] of
    the moment the upload started, with the new image: right before the
    completion the state holds the caption typed, right after it holds the
    caption from before the upload. *)
Theorem upload_overwrites_caption (s : Component) (typed : string)
    (f : option string) :
  let k := List.length (inflight s) in
  form_caption (postData (fst (run [UploadStart; Change typed] s))) = typed /\
  postData (fst (run [UploadStart; Change typed; UploadDone k f] s))
  = mkPostData (form_caption (postData s))
      ("https://socialuwu.herokuapp.com/images/" ++ filename_text f).
Proof.
  intros k. split; [reflexivity|].
  rewrite !run_cons. cbn [run fst snd step].
  unfold imageUpload_then.
  cbn [inflight onChange imageUpload].
  unfold k. rewrite nth_error_app2, Nat.sub_diag by lia. reflexivity.
Qed.

(** Submitting does not clear the draft.  From a state in which the Create
    button works, over any sequence of clicks on the buttons of the dialog
    (open, close, Create), the draft stays as it is and every click on
    Create hands the same draft to [createPost] again. *)
Theorem create_click_keeps_draft (events : list Event) (s : Component)
    (Hclicks : forallb is_click events = true)
    (Hgate : create_enabled (postData s) = true) :
  postData (fst (run events s)) = postData s /\
  snd (run events s)
  = repeat (postData s) (List.length (filter is_create events)).
Proof.
  revert s Hclicks Hgate.
  induction events as [|e rest IH]; intros s Hclicks Hgate.
  - now split.
  - simpl in Hclicks. apply andb_true_iff in Hclicks.
    destruct Hclicks as [He Hrest]. rewrite run_cons.
    assert (Hstep : postData (fst (step e s)) = postData s /\
                    snd (step e s)
                    = repeat (postData s) (if is_create e then 1 else 0)).
    { destruct e; simpl in *; try discriminate He; try (now split).
      rewrite Hgate. now split. }
    destruct Hstep as [Hpd Hout].
    assert (Hgate1 : create_enabled (postData (fst (step e s))) = true)
      by now rewrite Hpd.
    destruct (IH _ Hrest Hgate1) as [H1 H2].
    cbn [fst snd]. rewrite H1, H2, Hout, Hpd. split; [reflexivity|].
    simpl. destruct (is_create e); reflexivity.
Qed.

(** A run of [create_click_keeps_draft]: Create, reopen, Create. *)
Lemma create_click_keeps_draft_witness :
  (forallb is_click [ClickCreate; ClickOpen; ClickCreate] = true /\
   create_enabled (mkPostData "hello world" "x.png") = true) /\
  snd (run [ClickCreate; ClickOpen; ClickCreate]
         (mkComponent true (mkPostData "hello world" "x.png") []))
  = [mkPostData "hello world" "x.png"; mkPostData "hello world" "x.png"].
Proof.
  split; [split; reflexivity|].
  destruct (create_click_keeps_draft [ClickCreate; ClickOpen; ClickCreate]
              (mkComponent true (mkPostData "hello world" "x.png") [])
              eq_refl eq_refl) as [_ H].
  exact H.
Defined.
